(** * FuzClass: typo-tolerant attribute access

    A shallow embedding of [fuz.py].  The class intercepts attribute
    reads and writes and redirects a name to an already existing attribute
    that is spelled or pronounced alike.

    Conventions of the model:
    - names are byte strings ([string]); [str.lower] acts on the letters
      [A]..[Z] only;
    - a Python exception is a value of [exn], and fallible code lives in the
      error monad [res];
    - an object is its class identity, the namespace of its class and its
      instance dictionary in insertion order; the classes of the model
      define no data descriptor of their own, so the only names that
      [object.__setattr__] does not store in the instance dictionary are
      [__class__], [__dict__] and [__weakref__];
    - two collaborators are outside [fuz.py] and are variables of the
      development: the double-metaphone transform of the [fuzzy] package,
      which may find no code for a name, and what the interpreter does on a
      write to one of the three names above. *)

From Stdlib Require Import String Ascii List Bool Arith Lia.
From stdpp Require Import base list strings sorting.

Open Scope string_scope.
Open Scope list_scope.

(** ** Exceptions and the error monad *)

(** [AttributeError cls name] stands for the error of class
    [AttributeError] whose message says that an object of type [cls] has no
    attribute [name]: the one raised on line 144, the one of the ordinary
    lookup, and, as [AttributeError "NoneType" "decode"], the one that
    [None.decode()] raises. *)
Inductive exn : Type :=
| IndexError
| TypeError
| AttributeError (cls name : string).

Inductive res (A : Type) : Type :=
| Ok (a : A)
| Raise (e : exn).
Arguments Ok {A} a.
Arguments Raise {A} e.

Definition rbind {A B} (m : res A) (k : A -> res B) : res B :=
  match m with
  | Ok a => k a
  | Raise e => Raise e
  end.

Notation "'do' x <- m ; k" := (rbind m (fun x => k))
  (at level 10, x name, m at level 100, k at level 200).

Definition returns {A} (m : res A) : Prop := exists a, m = Ok a.

(** ** Python strings *)

Module Str.

Definition lower_char (c : ascii) : ascii :=
  let n := nat_of_ascii c in
  if Nat.leb 65 n && Nat.leb n 90 then ascii_of_nat (n + 32) else c.

(** [s.lower()] *)
Fixpoint lower (s : string) : string :=
  match s with
  | EmptyString => EmptyString
  | String c r => String (lower_char c) (lower r)
  end.

(** [s[0]] *)
Definition first (s : string) : res ascii :=
  match s with
  | EmptyString => Raise IndexError
  | String c _ => Ok c
  end.

(** [s[-1]] *)
Fixpoint last (s : string) : res ascii :=
  match s with
  | EmptyString => Raise IndexError
  | String c EmptyString => Ok c
  | String _ r => last r
  end.

(** [s[:-1]] *)
Fixpoint drop_last (s : string) : string :=
  match s with
  | EmptyString => EmptyString
  | String _ EmptyString => EmptyString
  | String c r => String c (drop_last r)
  end.

(** [s[1:-1]]: out-of-range slice bounds are clipped, never an error. *)
Definition inner (s : string) : string :=
  match s with
  | EmptyString => EmptyString
  | String _ r => drop_last r
  end.

Definition chars (s : string) : list ascii := list_ascii_of_string s.

End Str.

(** ** Python sets of characters

    A set is kept as a duplicate-free list; only membership and size are
    ever observed by the program. *)

Module PySet.

Definition t := list ascii.

(** [set(s)] *)
Definition of_str (s : string) : t := remove_dups (Str.chars s).

(** [a.symmetric_difference(b)] *)
Definition symmetric_difference (a b : t) : t :=
  list_difference a b ++ list_difference b a.

(** [len(a)] *)
Definition len (a : t) : nat := length a.

End PySet.

(** ** Objects *)

Section Object.

Context {V : Type}.

(** [cls_id] is what [self.__class__] prints as, [cls_ns] the attributes
    found on the class and its bases, [inst] the instance [__dict__]. *)
Record obj : Type := Obj {
  cls_id : string;
  cls_ns : list (string * V);
  inst : list (string * V)
}.

Fixpoint dict_get (d : list (string * V)) (k : string) : option V :=
  match d with
  | [] => None
  | (k', v) :: r => if String.eqb k' k then Some v else dict_get r k
  end.

(** [d[k] = v] on an insertion-ordered dictionary: an existing key keeps
    its place, a new key goes last. *)
Fixpoint dict_set (d : list (string * V)) (k : string) (v : V)
  : list (string * V) :=
  match d with
  | [] => [(k, v)]
  | (k', v') :: r =>
      if String.eqb k' k then (k', v) :: r else (k', v') :: dict_set r k v
  end.

Definition keys (d : list (string * V)) : list string := map fst d.

(** [dir(self)]: the names of the instance and of its class, without
    duplicates, sorted in ascending order. *)
Definition dir (self : obj) : list string :=
  merge_sort String.le (remove_dups (keys (inst self) ++ keys (cls_ns self))).

(** [object.__getattribute__(self, name)]: instance first, then class. *)
Definition object_getattribute (self : obj) (name : string) : res V :=
  match dict_get (inst self) name with
  | Some v => Ok v
  | None =>
      match dict_get (cls_ns self) name with
      | Some v => Ok v
      | None => Raise (AttributeError (cls_id self) name)
      end
  end.

(** [self.__dict__[name] = value] *)
Definition store (self : obj) (name : string) (value : V) : obj :=
  Obj (cls_id self) (cls_ns self) (dict_set (inst self) name value).

(** The names that every class answers with a data descriptor. *)
Definition data_descriptor (name : string) : bool :=
  existsb (String.eqb name) ["__class__"; "__dict__"; "__weakref__"].

(** What the interpreter does on a write to one of these names: depending
    on the value it raises [TypeError] or [AttributeError], or it replaces
    the class or the whole instance dictionary of the object. *)
Variable descriptor_set : obj -> string -> V -> res obj.

(** [object.__setattr__(self, name, value)]: a data descriptor of the class
    takes the write, every other name goes to the instance dictionary. *)
Definition object_setattr (self : obj) (name : string) (value : V)
  : res obj :=
  if data_descriptor name then descriptor_set self name value
  else Ok (store self name value).

End Object.
Arguments obj V : clear implicits.

(** ** The class [FuzClass] *)

Section FuzClass.

Context {V : Type}.

(** [fuzzy.DMetaphone()(name)]: a primary and an alternate code, each of
    them a byte string or [None] when the transform finds no code. *)
Variable DMetaphone : string -> option string * option string.

(** See [object_setattr]. *)
Variable descriptor_set : obj V -> string -> V -> res (obj V).

(** [name[0] == "_" or len(name) < 2] *)
Definition _off_limits (name : string) : res bool :=
  do c <- Str.first name;
  if Ascii.eqb c "_" then Ok true else Ok (Nat.ltb (String.length name) 2).

(** [bytes.decode()]: the codes are plain ASCII, so decoding a byte string
    changes nothing; [None] has no [decode] and line 57 raises. *)
Definition decode (b : option string) : res string :=
  match b with
  | Some code => Ok code
  | None => Raise (AttributeError "NoneType" "decode")
  end.

Definition _get_name_sound (name : string) : res string :=
  let '(name_sound_bytes, _) := DMetaphone name in
  do name_sound <- decode name_sound_bytes;
  Ok name_sound.

(** [[a for a in names if not self._off_limits(a)]] *)
Fixpoint keep_eligible (names : list string) : res (list string) :=
  match names with
  | [] => Ok []
  | a :: rest =>
      do off <- _off_limits a;
      do kept <- keep_eligible rest;
      Ok (if off then kept else a :: kept)
  end.

Definition existing_attrs_of (self : obj V) : res (list string) :=
  keep_eligible (dir self).

(** [existing_attrs[i]] *)
Definition list_getitem (l : list string) (i : nat) : res string :=
  match l !! i with
  | Some x => Ok x
  | None => Raise IndexError
  end.

(** The condition of the [if] on lines 96-99, with Python's
    short-circuit evaluation of [or] and [and]. *)
Definition similar_spelling (attr_lower name_lower : string)
    (different_inner_letters : PySet.t) : res bool :=
  if String.eqb attr_lower name_lower then Ok true
  else
    do a0 <- Str.first attr_lower;
    do n0 <- Str.first name_lower;
    if Ascii.eqb a0 n0 then
      do a1 <- Str.last attr_lower;
      do n1 <- Str.last name_lower;
      if Ascii.eqb a1 n1
      then Ok (Nat.ltb (PySet.len different_inner_letters) 2)
      else Ok false
    else Ok false.

(** The first loop: [for i, attr_lower in enumerate(existing_attrs_lower)].
    [None] means that the loop ran to its end. *)
Fixpoint spelling_loop (existing_attrs : list string) (name_lower : string)
    (specified_inner_letters : PySet.t) (i : nat)
    (existing_attrs_lower : list string) : res (option string) :=
  match existing_attrs_lower with
  | [] => Ok None
  | attr_lower :: rest =>
      let attr_inner_letters := PySet.of_str (Str.inner attr_lower) in
      let different_inner_letters :=
        PySet.symmetric_difference specified_inner_letters
          attr_inner_letters in
      do hit <- similar_spelling attr_lower name_lower
                  different_inner_letters;
      if hit then
        do a <- list_getitem existing_attrs i; Ok (Some a)
      else
        spelling_loop existing_attrs name_lower specified_inner_letters
          (S i) rest
  end.

(** The second loop: [for attr in existing_attrs].  [None] means that
    the loop ran to its end. *)
Fixpoint sound_loop (name_sound : string) (existing_attrs : list string)
  : res (option string) :=
  match existing_attrs with
  | [] => Ok None
  | attr :: rest =>
      do existing_attr_name_sound <- _get_name_sound attr;
      if String.eqb existing_attr_name_sound name_sound then Ok (Some attr)
      else sound_loop name_sound rest
  end.

(** The truth value of a string: non-empty. *)
Definition truthy (s : string) : bool :=
  match s with
  | EmptyString => false
  | String _ _ => true
  end.

Definition _find_similar_attr (self : obj V) (name : string) : res string :=
  do off <- _off_limits name;
  if negb off then
    do existing_attrs <- existing_attrs_of self;
    let existing_attrs_lower := map Str.lower existing_attrs in
    let name_lower := Str.lower name in
    let specified_inner_letters := PySet.of_str (Str.inner name_lower) in
    do found <- spelling_loop existing_attrs name_lower
                  specified_inner_letters 0 existing_attrs_lower;
    match found with
    | Some a => Ok a
    | None =>
        do name_sound <- _get_name_sound name;
        if truthy name_sound then
          do heard <- sound_loop name_sound existing_attrs;
          match heard with
          | Some attr => Ok attr
          | None => Ok name
          end
        else Ok name
    end
  else Ok name.

Definition __setattr__ (self : obj V) (name : string) (value : V)
  : res (obj V) :=
  do new_name <- _find_similar_attr self name;
  object_setattr descriptor_set self new_name value.

Definition __getattr__ (self : obj V) (name : string) : res V :=
  do new_name <- _find_similar_attr self name;
  if String.eqb new_name name
  then Raise (AttributeError (cls_id self) name)
  else object_getattribute self new_name.

(** The attribute protocol of the interpreter. [self.name] tries the
    ordinary lookup and calls [__getattr__] when that lookup raises
    [AttributeError]; [self.name = value] always calls [__setattr__]. *)
Definition getattr (self : obj V) (name : string) : res V :=
  match object_getattribute self name with
  | Ok v => Ok v
  | Raise (AttributeError _ _) => __getattr__ self name
  | Raise e => Raise e
  end.

Definition setattr (self : obj V) (name : string) (value : V)
  : res (obj V) :=
  __setattr__ self name value.

End FuzClass.

(** ** Derived notions used to state the properties *)

(** A name takes part in the matching when the guard lets it through. *)
Definition eligible (name : string) : bool :=
  match _off_limits name with
  | Ok false => true
  | _ => false
  end.

(** The test of the first loop for the attribute [attr], as a boolean. *)
Definition spelling_hit (name attr : string) : bool :=
  let name_lower := Str.lower name in
  let attr_lower := Str.lower attr in
  match similar_spelling attr_lower name_lower
          (PySet.symmetric_difference
             (PySet.of_str (Str.inner name_lower))
             (PySet.of_str (Str.inner attr_lower))) with
  | Ok b => b
  | Raise _ => false
  end.

(** The type of the encoders. *)
Definition encoder : Type := string -> option string * option string.

(** The outcome of the two passes over the eligible names [l]. *)
Definition two_passes (DMetaphone : encoder) (name : string)
    (l : list string) : res string :=
  match List.find (spelling_hit name) l with
  | Some a => Ok a
  | None =>
      do name_sound <- _get_name_sound DMetaphone name;
      if truthy name_sound then
        do heard <- sound_loop DMetaphone name_sound l;
        Ok (match heard with Some a => a | None => name end)
      else Ok name
  end.

(** The matching rule in the words of the specification. *)
Module Spec.

(** [c] stands strictly between the first and the last character of [x]. *)
Definition interior (x : string) (c : ascii) : Prop :=
  exists i, 0 < i /\ S i < String.length x /\ String.get i x = Some c.

Definition sym_diff (P Q : ascii -> Prop) (c : ascii) : Prop :=
  (P c /\ ~ Q c) \/ (Q c /\ ~ P c).

Definition fewer_than_two (P : ascii -> Prop) : Prop :=
  forall c d, P c -> P d -> c = d.

Definition first_char (x : string) : option ascii := String.get 0 x.

Definition last_char (x : string) : option ascii :=
  String.get (String.length x - 1) x.

(** Two characters that are there and equal up to case. *)
Definition same_letter (a b : option ascii) : Prop :=
  exists c d, a = Some c /\ b = Some d /\
              Str.lower_char c = Str.lower_char d.

Definition orthographic_match (e candidate : string) : Prop :=
  Str.lower e = Str.lower candidate \/
  (same_letter (first_char e) (first_char candidate) /\
   same_letter (last_char e) (last_char candidate) /\
   fewer_than_two (sym_diff (interior (Str.lower e))
                            (interior (Str.lower candidate)))).

(** The encoder has a code for both names, and it is the same code. *)
Definition phonetic_match (DMetaphone : encoder)
    (e candidate : string) : Prop :=
  exists code, _get_name_sound DMetaphone e = Ok code /\
               _get_name_sound DMetaphone candidate = Ok code.

(** [r] is the first entry of [l], in order, that satisfies [P], or
    [None] when no entry does. *)
Definition first_such (P : string -> Prop) (l : list string)
    (r : option string) : Prop :=
  match r with
  | Some e => exists l1 l2, l = l1 ++ e :: l2 /\ P e /\
                            forall x, x ∈ l1 -> ~ P x
  | None => forall x, x ∈ l -> ~ P x
  end.

End Spec.

(** ** A stand-in encoder and sample objects, to run the definitions *)

Module Demo.

Definition silent (c : ascii) : bool :=
  existsb (Ascii.eqb c) (Str.chars "aeiouhwy").

Fixpoint skeleton (s : string) : string :=
  match s with
  | EmptyString => EmptyString
  | String c r =>
      match r with
      | String d r' =>
          if Ascii.eqb c "t" && Ascii.eqb d "h"
          then String "0" (skeleton r')
          else if silent c then skeleton r else String c (skeleton r)
      | EmptyString => if silent c then EmptyString else String c EmptyString
      end
  end.

(** Not the transform of the [fuzzy] package: the code of a name is its
    lower-cased spelling with [th] turned into [0] and without vowels and
    without [h], [w], [y]; a name of which nothing is left has no code. *)
Definition dmo (name : string) : option string * option string :=
  match skeleton (Str.lower name) with
  | EmptyString => (None, None)
  | code => (Some code, None)
  end.

(** An encoder that finds no code for any name. *)
Definition mute (name : string) : option string * option string :=
  (None, None).

(** Writes to the three special names when the values are numbers: a
    number is neither a class nor a dictionary, and [__weakref__] cannot be
    written. *)
Definition descr (o : obj nat) (name : string) (value : nat)
  : res (obj nat) :=
  if String.eqb name "__weakref__"
  then Raise (AttributeError (cls_id o) name)
  else Raise TypeError.

(** [class MyTest(FuzClass): pass], then [MyTest()]: the class namespace
    holds the methods of [FuzClass]; the value [0] stands for them. *)
Definition MyTest : obj nat :=
  Obj "MyTest"
    [("__getattr__", 0); ("__setattr__", 0); ("_find_similar_attr", 0);
     ("_get_name_sound", 0); ("_off_limits", 0); ("__class__", 0);
     ("__dict__", 0); ("__doc__", 0); ("__init__", 0); ("__module__", 0);
     ("__weakref__", 0)]
    [].

(** A [MyTest] object whose instance dictionary is [d]. *)
Definition instance (d : list (string * nat)) : obj nat :=
  Obj (cls_id MyTest) (cls_ns MyTest) d.

(** [class Palette(FuzClass): color = 1; colour = 2], then [Palette()]. *)
Definition Palette : obj nat :=
  Obj "Palette" (("color", 1) :: ("colour", 2) :: cls_ns MyTest) [].

(** Run a script of writes, stopping at the first exception. *)
Fixpoint sets (enc : encoder) (o : obj nat)
    (ws : list (string * nat)) : res (obj nat) :=
  match ws with
  | [] => Ok o
  | (n, v) :: r => do o' <- setattr enc descr o n v; sets enc o' r
  end.

End Demo.

(** ** Scripts of writes and the invariant they keep *)

(** [self.n1 = v1; self.n2 = v2; ...], stopping at the first exception. *)
Fixpoint setattrs {V : Type} (DMetaphone : encoder)
    (descriptor_set : obj V -> string -> V -> res (obj V))
    (self : obj V) (ws : list (string * V)) : res (obj V) :=
  match ws with
  | [] => Ok self
  | (name, value) :: rest =>
      do self' <- setattr DMetaphone descriptor_set self name value;
      setattrs DMetaphone descriptor_set self' rest
  end.


(** No two different eligible names of the object are spelled alike, and
    no two of them share a non-empty code. *)
Definition fuzzy_distinct {V : Type}
    (DMetaphone : encoder) (o : obj V) : Prop :=
  forall e1 e2,
    e1 ∈ dir o -> e2 ∈ dir o ->
    eligible e1 = true -> eligible e2 = true -> e1 <> e2 ->
    ~ Spec.orthographic_match e1 e2 /\
    ~ (Spec.phonetic_match DMetaphone e1 e2 /\
       _get_name_sound DMetaphone e1 <> Ok "").

(** * Properties *)

(** ** The error monad *)

Lemma rbind_Ok {A B} (m : res A) (k : A -> res B) (b : B) :
  rbind m k = Ok b -> exists a, m = Ok a /\ k a = Ok b.
Proof. destruct m as [a|e]; simpl; [eauto | discriminate]. Qed.

(** ** Strings *)

Lemma lower_nonempty (s : string) : s <> "" -> Str.lower s <> "".
Proof. destruct s; simpl; [tauto | discriminate]. Qed.

Lemma first_lower (c : ascii) (r : string) :
  Str.first (Str.lower (String c r)) = Ok (Str.lower_char c).
Proof. reflexivity. Qed.

Lemma last_cons_cons (a b : ascii) (r : string) :
  Str.last (String a (String b r)) = Str.last (String b r).
Proof. reflexivity. Qed.

Lemma last_returns (s : string) : s <> "" -> exists c, Str.last s = Ok c.
Proof.
  induction s as [|a r IH]; [tauto|]. intros _.
  destruct r as [|b r]; [exists a; reflexivity|].
  rewrite last_cons_cons. apply IH. discriminate.
Qed.

Lemma last_lower (s : string) (c : ascii) :
  Str.last s = Ok c -> Str.last (Str.lower s) = Ok (Str.lower_char c).
Proof.
  induction s as [|a r IH]; [discriminate|].
  destruct r as [|b r].
  - simpl. congruence.
  - rewrite last_cons_cons. intros H. apply IH in H. exact H.
Qed.

(** ** The guard *)

Lemma off_limits_empty : _off_limits "" = Raise IndexError.
Proof. reflexivity. Qed.

Lemma off_limits_cons (c : ascii) (r : string) :
  _off_limits (String c r)
  = Ok (Ascii.eqb c "_" || Nat.ltb (String.length (String c r)) 2).
Proof. unfold _off_limits. simpl. destruct (Ascii.eqb c "_"); reflexivity. Qed.

Lemma off_limits_returns (name : string) :
  name <> "" -> exists b, _off_limits name = Ok b.
Proof. destruct name; [tauto|]. rewrite off_limits_cons. eauto. Qed.

Lemma off_limits_Ok_nonempty (name : string) (b : bool) :
  _off_limits name = Ok b -> name <> "".
Proof. destruct name; [discriminate | discriminate]. Qed.

Lemma eligible_nonempty (name : string) : eligible name = true -> name <> "".
Proof. destruct name; [discriminate | discriminate]. Qed.

Lemma eligible_off_limits (name : string) :
  eligible name = true <-> _off_limits name = Ok false.
Proof.
  unfold eligible. destruct (_off_limits name) as [[|]|]; split;
    congruence.
Qed.

Lemma keep_eligible_filter (names : list string) :
  Forall (fun n => n <> "") names ->
  keep_eligible names = Ok (List.filter eligible names).
Proof.
  induction 1 as [|n names Hn _ IH]; [reflexivity|].
  simpl. destruct (off_limits_returns n Hn) as [b Hb].
  unfold eligible. rewrite Hb, IH. simpl. destruct b; reflexivity.
Qed.

Lemma keep_eligible_Ok (names l : list string) :
  keep_eligible names = Ok l ->
  Forall (fun n => n <> "") names /\ l = List.filter eligible names.
Proof.
  revert l. induction names as [|n names IH]; intros l H.
  - simpl in H. injection H as <-. split; [constructor | reflexivity].
  - simpl in H. apply rbind_Ok in H as (b & Hb & H).
    apply rbind_Ok in H as (kept & Hk & H). injection H as <-.
    destruct (IH _ Hk) as [Hne ->]. split.
    + constructor; [exact (off_limits_Ok_nonempty _ _ Hb) | exact Hne].
    + simpl. unfold eligible. rewrite Hb. destruct b; reflexivity.
Qed.

Lemma keep_eligible_all_eligible (names l : list string) :
  keep_eligible names = Ok l -> Forall (fun n => eligible n = true) l.
Proof.
  intros H. apply keep_eligible_Ok in H as [_ ->].
  apply List.Forall_forall. intros x Hx. apply List.filter_In in Hx. tauto.
Qed.

Lemma keep_eligible_sub (names l : list string) (x : string) :
  keep_eligible names = Ok l -> In x l -> In x names.
Proof.
  intros H Hx. apply keep_eligible_Ok in H as [_ ->].
  apply List.filter_In in Hx. tauto.
Qed.

(** ** The two loops *)

Lemma similar_spelling_returns (attr_lower name_lower : string) (d : PySet.t) :
  attr_lower <> "" -> name_lower <> "" ->
  exists b, similar_spelling attr_lower name_lower d = Ok b.
Proof.
  intros Ha Hn. unfold similar_spelling.
  destruct (String.eqb attr_lower name_lower); [eauto|].
  destruct (last_returns _ Ha) as [a1 Ha1], (last_returns _ Hn) as [n1 Hn1].
  destruct attr_lower as [|a0 ar]; [tauto|].
  destruct name_lower as [|n0 nr]; [tauto|].
  cbn [Str.first rbind]. destruct (Ascii.eqb a0 n0); [|eauto].
  rewrite Ha1, Hn1. cbn [rbind]. destruct (Ascii.eqb a1 n1); eauto.
Qed.

Lemma similar_spelling_hit (name attr : string) :
  name <> "" -> attr <> "" ->
  similar_spelling (Str.lower attr) (Str.lower name)
    (PySet.symmetric_difference
       (PySet.of_str (Str.inner (Str.lower name)))
       (PySet.of_str (Str.inner (Str.lower attr))))
  = Ok (spelling_hit name attr).
Proof.
  intros Hn Ha. unfold spelling_hit.
  destruct (similar_spelling_returns (Str.lower attr) (Str.lower name)
              (PySet.symmetric_difference
                 (PySet.of_str (Str.inner (Str.lower name)))
                 (PySet.of_str (Str.inner (Str.lower attr)))))
    as [b Hb]; [apply lower_nonempty; assumption..|].
  rewrite Hb. reflexivity.
Qed.

(** The first loop, started at position [length done] of the list
    [done ++ todo], finds the first hit of [todo] and hands back the
    original spelling kept at the same position. *)
Lemma spelling_loop_find (name : string) (todo done : list string) :
  name <> "" -> Forall (fun n => n <> "") todo ->
  spelling_loop (done ++ todo) (Str.lower name)
    (PySet.of_str (Str.inner (Str.lower name))) (length done)
    (map Str.lower todo)
  = Ok (List.find (spelling_hit name) todo).
Proof.
  intros Hn Htodo. revert done.
  induction Htodo as [|attr todo Hattr _ IH]; intros done; [reflexivity|].
  cbn [map spelling_loop List.find].
  rewrite (similar_spelling_hit name attr Hn Hattr). cbn [rbind].
  destruct (spelling_hit name attr).
  - unfold list_getitem.
    rewrite (list_lookup_middle done todo attr (length done) eq_refl).
    reflexivity.
  - specialize (IH (done ++ [attr])).
    rewrite <- app_assoc, length_app in IH. simpl in IH.
    replace (length done + 1) with (S (length done)) in IH by lia.
    exact IH.
Qed.

Section Loops.

Context {V : Type}.
Variable DMetaphone : encoder.

(** [_get_name_sound] hands out the primary code of the encoder, and
    raises when there is none. *)
Lemma get_name_sound_coded (name code : string) :
  _get_name_sound DMetaphone name = Ok code
  <-> fst (DMetaphone name) = Some code.
Proof.
  unfold _get_name_sound. destruct (DMetaphone name) as [[c|] alt]; simpl;
    split; congruence.
Qed.

Lemma get_name_sound_absent (name : string) :
  _get_name_sound DMetaphone name = Raise (AttributeError "NoneType" "decode")
  <-> fst (DMetaphone name) = None.
Proof.
  unfold _get_name_sound. destruct (DMetaphone name) as [[c|] alt]; simpl;
    split; congruence.
Qed.


(** The second loop stops at the first attribute whose code is the code
    asked for; every attribute before it has another code. *)
Lemma sound_loop_Some (s a : string) (l : list string) :
  sound_loop DMetaphone s l = Ok (Some a) ->
  exists l1 l2, l = l1 ++ a :: l2 /\
                _get_name_sound DMetaphone a = Ok s /\
                forall x, x ∈ l1 ->
                  exists c, _get_name_sound DMetaphone x = Ok c /\ c <> s.
Proof.
  induction l as [|x l IH]; [discriminate|]. simpl. intros H.
  apply rbind_Ok in H as (c & Hc & H).
  destruct (String.eqb_spec c s) as [->|E].
  - injection H as <-. exists [], l. split; [reflexivity|].
    split; [exact Hc|]. intros y Hy. inversion Hy.
  - destruct (IH H) as (l1 & l2 & -> & Ha & Hl1).
    exists (x :: l1), l2. split; [reflexivity|]. split; [exact Ha|].
    intros y Hy. apply elem_of_cons in Hy as [->|Hy]; eauto.
Qed.

Lemma sound_loop_None (s : string) (l : list string) :
  sound_loop DMetaphone s l = Ok None <->
  forall x, x ∈ l ->
    exists c, _get_name_sound DMetaphone x = Ok c /\ c <> s.
Proof.
  induction l as [|x l IH]; simpl.
  { split; [intros _ y Hy; inversion Hy | reflexivity]. }
  split.
  - intros H. apply rbind_Ok in H as (c & Hc & H).
    destruct (String.eqb_spec c s) as [->|E]; [discriminate|].
    intros y Hy. apply elem_of_cons in Hy as [->|Hy]; [eauto|].
    apply IH; assumption.
  - intros H. destruct (H x) as (c & Hc & E); [left|].
    rewrite Hc. cbn [rbind]. apply String.eqb_neq in E. rewrite E.
    apply IH. intros y Hy. apply H. right. exact Hy.
Qed.


Lemma sound_loop_raises (s a : string) (l1 l2 : list string) (err : exn) :
  (forall x, x ∈ l1 ->
     exists c, _get_name_sound DMetaphone x = Ok c /\ c <> s) ->
  _get_name_sound DMetaphone a = Raise err ->
  sound_loop DMetaphone s (l1 ++ a :: l2) = Raise err.
Proof.
  intros Hl1 Ha. induction l1 as [|x l1 IH]; simpl.
  - rewrite Ha. reflexivity.
  - destruct (Hl1 x) as (c & Hc & E); [left|].
    rewrite Hc. cbn [rbind]. apply String.eqb_neq in E. rewrite E.
    apply IH. intros y Hy. apply Hl1. right. exact Hy.
Qed.



(** For an eligible name the method computes the two passes over the
    eligible names of [dir(self)]. *)
Lemma find_similar_eligible (self : obj V) (name : string)
    (l : list string) :
  eligible name = true ->
  existing_attrs_of self = Ok l ->
  _find_similar_attr DMetaphone self name = two_passes DMetaphone name l.
Proof.
  intros Hname Hl. unfold _find_similar_attr.
  pose proof (eligible_nonempty _ Hname) as Hne.
  apply eligible_off_limits in Hname. rewrite Hname, Hl. cbn [rbind negb].
  assert (Forall (fun n => n <> "") l) as Hl'.
  { eapply List.Forall_impl;
      [|exact (keep_eligible_all_eligible _ _ Hl)].
    intros a. apply eligible_nonempty. }
  pose proof (spelling_loop_find name l [] Hne Hl') as Hloop.
  cbn [app length] in Hloop. rewrite Hloop. cbn [rbind].
  unfold two_passes. destruct (List.find (spelling_hit name) l);
    [reflexivity|].
  destruct (_get_name_sound DMetaphone name) as [s|e]; [|reflexivity].
  cbn [rbind]. destruct (truthy s); [|reflexivity].
  destruct (sound_loop DMetaphone s l) as [[a|]|e]; reflexivity.
Qed.

(** The method looks at [self] through [dir(self)] only. *)
Lemma find_similar_dir (o o' : obj V) (name : string) :
  dir o = dir o' ->
  _find_similar_attr DMetaphone o name
  = _find_similar_attr DMetaphone o' name.
Proof.
  intros H. unfold _find_similar_attr, existing_attrs_of. rewrite H.
  reflexivity.
Qed.

End Loops.

(** ** The loop test against the rule of the specification *)

Lemma last_get (s : string) (c : ascii) :
  s <> "" -> (Str.last s = Ok c <-> Spec.last_char s = Some c).
Proof.
  unfold Spec.last_char. induction s as [|a r IH]; [tauto|]. intros _.
  destruct r as [|b r].
  - simpl. split; congruence.
  - rewrite last_cons_cons.
    replace (String.length (String a (String b r)) - 1)
      with (S (String.length (String b r) - 1)) by (simpl; lia).
    cbn [String.get]. apply IH. discriminate.
Qed.

Lemma drop_last_elem (r : string) (c : ascii) :
  c ∈ Str.chars (Str.drop_last r) <->
  exists j, S j < String.length r /\ String.get j r = Some c.
Proof.
  induction r as [|b r IH].
  - simpl. split; [intros H; inversion H | intros (j & Hj & _); lia].
  - destruct r as [|b' r].
    + simpl. split; [intros H; inversion H | intros (j & Hj & _); lia].
    + change (Str.drop_last (String b (String b' r)))
        with (String b (Str.drop_last (String b' r))).
      change (Str.chars (String b (Str.drop_last (String b' r))))
        with (b :: Str.chars (Str.drop_last (String b' r))).
      rewrite elem_of_cons, IH. split.
      * intros [->|(j & Hj & Hget)].
        -- exists 0. split; [simpl; lia | reflexivity].
        -- exists (S j). split; [simpl in *; lia | exact Hget].
      * intros ([|j] & Hj & Hget).
        -- left. simpl in Hget. congruence.
        -- right. exists j. split; [simpl in *; lia | exact Hget].
Qed.

(** [s[1:-1]] holds exactly the characters strictly between the ends. *)
Lemma inner_interior (x : string) (c : ascii) :
  c ∈ Str.chars (Str.inner x) <-> Spec.interior x c.
Proof.
  unfold Spec.interior. destruct x as [|a r].
  - simpl. split; [intros H; inversion H | intros (i & _ & Hi & _); lia].
  - cbn [Str.inner]. rewrite drop_last_elem. split.
    + intros (j & Hj & Hget). exists (S j).
      split; [lia | split; [simpl; lia | exact Hget]].
    + intros ([|j] & Hpos & Hj & Hget); [lia|].
      exists j. split; [simpl in Hj; lia | exact Hget].
Qed.

Lemma of_str_elem (s : string) (c : ascii) :
  c ∈ PySet.of_str s <-> c ∈ Str.chars s.
Proof. unfold PySet.of_str. apply elem_of_remove_dups. Qed.

Lemma symmetric_difference_elem (a b : PySet.t) (c : ascii) :
  c ∈ PySet.symmetric_difference a b <->
  Spec.sym_diff (fun c => c ∈ a) (fun c => c ∈ b) c.
Proof.
  unfold PySet.symmetric_difference, Spec.sym_diff.
  rewrite elem_of_app, !list_elem_of_difference. tauto.
Qed.

Lemma symmetric_difference_NoDup (a b : PySet.t) :
  NoDup a -> NoDup b -> NoDup (PySet.symmetric_difference a b).
Proof.
  intros Ha Hb. unfold PySet.symmetric_difference. apply NoDup_app.
  split; [|split].
  - apply NoDup_list_difference, Ha.
  - intros c. rewrite !list_elem_of_difference. tauto.
  - apply NoDup_list_difference, Hb.
Qed.

Lemma short_NoDup (l : list ascii) :
  NoDup l ->
  (Nat.ltb (length l) 2 = true <-> Spec.fewer_than_two (fun c => c ∈ l)).
Proof.
  intros Hl. unfold Spec.fewer_than_two. destruct l as [|x [|y l]].
  - split; [intros _ c d H; inversion H | reflexivity].
  - split; [|reflexivity]. intros _ c d Hc Hd.
    apply list_elem_of_singleton in Hc, Hd. congruence.
  - split; [discriminate|]. intros H.
    assert (x = y) as -> by (apply H; repeat constructor).
    apply NoDup_cons in Hl as [Hl _]. exfalso. apply Hl. constructor.
Qed.

Lemma fewer_than_two_ext (P Q : ascii -> Prop) :
  (forall c, P c <-> Q c) ->
  Spec.fewer_than_two P <-> Spec.fewer_than_two Q.
Proof.
  intros H. unfold Spec.fewer_than_two.
  split; intros F c d Hc Hd; apply F; apply H; assumption.
Qed.

(** The size test of line 99 says that the interior letters of the two
    lower-cased names differ in fewer than two letters. *)
Lemma inner_letters_close (name attr : string) :
  Nat.ltb (PySet.len (PySet.symmetric_difference
                        (PySet.of_str (Str.inner (Str.lower name)))
                        (PySet.of_str (Str.inner (Str.lower attr))))) 2
  = true
  <-> Spec.fewer_than_two
        (Spec.sym_diff (Spec.interior (Str.lower attr))
                       (Spec.interior (Str.lower name))).
Proof.
  unfold PySet.len. rewrite short_NoDup.
  - apply fewer_than_two_ext. intros c.
    rewrite symmetric_difference_elem. unfold Spec.sym_diff.
    rewrite !of_str_elem, !inner_interior. tauto.
  - apply symmetric_difference_NoDup; apply NoDup_remove_dups.
Qed.

(** The condition of the first loop is the orthographic rule. *)
Lemma spelling_hit_spec (name attr : string) :
  name <> "" -> attr <> "" ->
  (spelling_hit name attr = true <-> Spec.orthographic_match attr name).
Proof.
  intros Hn Ha. unfold spelling_hit, Spec.orthographic_match.
  pose proof (inner_letters_close name attr) as Hclose.
  destruct (last_returns _ Ha) as [a1 Ha1], (last_returns _ Hn) as [n1 Hn1].
  pose proof (proj1 (last_get _ _ Ha) Ha1) as Ha1'.
  pose proof (proj1 (last_get _ _ Hn) Hn1) as Hn1'.
  apply last_lower in Ha1, Hn1.
  unfold similar_spelling.
  destruct (String.eqb_spec (Str.lower attr) (Str.lower name)) as [E|E];
    [tauto|].
  destruct attr as [|a0 ar]; [tauto|]. destruct name as [|n0 nr]; [tauto|].
  rewrite !first_lower. cbn [rbind].
  rewrite Ha1, Hn1. cbn [rbind].
  assert (Spec.same_letter (Spec.first_char (String a0 ar))
            (Spec.first_char (String n0 nr))
          <-> Str.lower_char a0 = Str.lower_char n0) as Hfirst.
  { unfold Spec.same_letter, Spec.first_char. simpl. split.
    - intros (c & d & [= <-] & [= <-] & H). exact H.
    - intros H. exists a0, n0. auto. }
  assert (Spec.same_letter (Spec.last_char (String a0 ar))
            (Spec.last_char (String n0 nr))
          <-> Str.lower_char a1 = Str.lower_char n1) as Hlast.
  { unfold Spec.same_letter. rewrite Ha1', Hn1'. split.
    - intros (c & d & [= <-] & [= <-] & H). exact H.
    - intros H. exists a1, n1. auto. }
  rewrite Hfirst, Hlast, <- Hclose.
  destruct (Ascii.eqb_spec (Str.lower_char a0) (Str.lower_char n0));
    [|split; [discriminate | tauto]].
  destruct (Ascii.eqb_spec (Str.lower_char a1) (Str.lower_char n1));
    [|split; [discriminate | tauto]].
  tauto.
Qed.

(** ** Lists *)

Lemma find_app_first {A} (f : A -> bool) (l1 l2 : list A) (e : A) :
  Forall (fun x => f x = false) l1 -> f e = true ->
  List.find f (l1 ++ e :: l2) = Some e.
Proof.
  induction 1 as [|x l1 Hx _ IH]; intros He; simpl.
  - rewrite He. reflexivity.
  - rewrite Hx. apply IH, He.
Qed.

Lemma find_none_all {A} (f : A -> bool) (l : list A) :
  Forall (fun x => f x = false) l -> List.find f l = None.
Proof.
  induction 1 as [|x l Hx _ IH]; simpl; [reflexivity|].
  rewrite Hx. exact IH.
Qed.

Lemma find_first {A} (f : A -> bool) (l : list A) (r : A) :
  List.find f l = Some r ->
  exists l1 l2, l = l1 ++ r :: l2 /\ f r = true /\
                Forall (fun x => f x = false) l1.
Proof.
  induction l as [|x l IH]; [discriminate|]. simpl.
  destruct (f x) eqn:Hx.
  - intros [= ->]. exists [], l. auto.
  - intros H. destruct (IH H) as (l1 & l2 & -> & Hr & Hl1).
    exists (x :: l1), l2. auto.
Qed.

Lemma find_is_Some {A} (f : A -> bool) (l : list A) (e : A) :
  e ∈ l -> f e = true -> exists r, List.find f l = Some r.
Proof.
  intros He Hf. destruct (List.find f l) as [r|] eqn:H; [eauto|].
  apply list_elem_of_In in He.
  rewrite (List.find_none f l H e He) in Hf. discriminate.
Qed.

(** In a sorted list the first hit is below every other hit. *)
Lemma find_sorted_least (f : string -> bool) (l : list string) (r e : string) :
  StronglySorted String.le l -> List.find f l = Some r ->
  e ∈ l -> f e = true -> String.le r e.
Proof.
  intros Hs Hfind He Hf.
  destruct (find_first f l r Hfind) as (l1 & l2 & -> & Hr & Hl1).
  apply elem_of_app in He as [He|He].
  - rewrite List.Forall_forall in Hl1. apply list_elem_of_In in He.
    rewrite (Hl1 e He) in Hf. discriminate.
  - apply StronglySorted_app_1_r in Hs.
    apply elem_of_cons in He as [->|He]; [reflexivity|].
    apply StronglySorted_inv in Hs as [_ Hall].
    rewrite List.Forall_forall in Hall. apply Hall.
    apply list_elem_of_In, He.
Qed.

Lemma filter_StronglySorted (f : string -> bool) (l : list string) :
  StronglySorted String.le l -> StronglySorted String.le (List.filter f l).
Proof.
  induction 1 as [|x l _ IH Hall]; simpl; [constructor|].
  destruct (f x); [|exact IH]. constructor; [exact IH|].
  rewrite List.Forall_forall in *. intros y Hy.
  apply List.filter_In in Hy as [Hy _]. auto.
Qed.

Lemma filter_NoDup (f : string -> bool) (l : list string) :
  NoDup l -> NoDup (List.filter f l).
Proof.
  induction 1 as [|x l Hx _ IH]; simpl; [constructor|].
  destruct (f x); [|exact IH]. constructor; [|exact IH].
  intros Hin. apply Hx. apply list_elem_of_In in Hin.
  apply List.filter_In in Hin as [Hin _]. apply list_elem_of_In, Hin.
Qed.

(** ** Dictionaries and [dir] *)

Section Dict.

Context {V : Type}.
Implicit Types (d : list (string * V)) (o : obj V).

Lemma dict_get_set_eq d k v : dict_get (dict_set d k v) k = Some v.
Proof.
  induction d as [|[k' v'] d IH]; simpl.
  - rewrite String.eqb_refl. reflexivity.
  - destruct (String.eqb k' k) eqn:E; simpl; rewrite E; [reflexivity|].
    exact IH.
Qed.

Lemma dict_get_set_ne d k k' v :
  k <> k' -> dict_get (dict_set d k v) k' = dict_get d k'.
Proof.
  intros Hne. induction d as [|[k0 v0] d IH]; simpl.
  - apply String.eqb_neq in Hne. rewrite Hne. reflexivity.
  - destruct (String.eqb_spec k0 k) as [->|E]; simpl.
    + apply String.eqb_neq in Hne. rewrite Hne. reflexivity.
    + rewrite IH. reflexivity.
Qed.

Lemma dict_get_keys d k : is_Some (dict_get d k) <-> k ∈ keys d.
Proof.
  induction d as [|[k0 v0] d IH]; simpl.
  - split; [intros [? [=]] | intros H; inversion H].
  - rewrite elem_of_cons. destruct (String.eqb_spec k0 k) as [->|E].
    + split; [auto | eauto].
    + rewrite IH. simpl. split; [auto | intros [->|?]; tauto].
Qed.

Lemma keys_dict_set d k v x :
  x ∈ keys (dict_set d k v) <-> x = k \/ x ∈ keys d.
Proof.
  induction d as [|[k0 v0] d IH]; simpl.
  - rewrite list_elem_of_singleton.
    split; [auto | intros [?|H]; [auto | inversion H]].
  - destruct (String.eqb_spec k0 k) as [->|E]; simpl;
      rewrite !elem_of_cons; [tauto|]. rewrite IH. tauto.
Qed.

Lemma dir_elem o x :
  x ∈ dir o <-> x ∈ keys (inst o) \/ x ∈ keys (cls_ns o).
Proof.
  unfold dir. rewrite merge_sort_Permutation, elem_of_remove_dups.
  apply elem_of_app.
Qed.

Lemma dir_sorted o : StronglySorted String.le (dir o).
Proof. apply StronglySorted_merge_sort; apply _. Qed.

Lemma dir_NoDup o : NoDup (dir o).
Proof.
  unfold dir. rewrite merge_sort_Permutation. apply NoDup_remove_dups.
Qed.

(** [dir] depends on the set of names only. *)
Lemma dir_ext o o' : (forall x, x ∈ dir o <-> x ∈ dir o') -> dir o = dir o'.
Proof.
  intros H. apply (StronglySorted_unique String.le);
    [apply dir_sorted | apply dir_sorted|].
  apply NoDup_Permutation; [apply dir_NoDup | apply dir_NoDup | exact H].
Qed.

(** Writing to a name that is already listed adds no name. *)
Lemma dir_setattr_existing o a v :
  a ∈ dir o -> dir (store o a v) = dir o.
Proof.
  intros Ha. apply dir_ext. intros x. rewrite !dir_elem. simpl.
  rewrite keys_dict_set. rewrite dir_elem in Ha.
  split; [intros [[->|?]|?]; tauto | tauto].
Qed.

Lemma object_getattribute_setattr o a v :
  object_getattribute (store o a v) a = Ok v.
Proof.
  unfold object_getattribute. simpl. rewrite dict_get_set_eq. reflexivity.
Qed.

(** The ordinary lookup finds exactly the names that [dir] lists. *)
Lemma object_getattribute_dir o name :
  name ∈ dir o -> exists v, object_getattribute o name = Ok v.
Proof.
  rewrite dir_elem, <- !dict_get_keys. unfold object_getattribute.
  destruct (dict_get (inst o) name) as [v|]; [eauto|].
  intros [[v [=]]|[v ->]]. eauto.
Qed.

Lemma object_getattribute_not_dir o name :
  name ∉ dir o ->
  object_getattribute o name = Raise (AttributeError (cls_id o) name).
Proof.
  rewrite dir_elem, <- !dict_get_keys. unfold object_getattribute.
  destruct (dict_get (inst o) name) as [v|].
  { intros H. exfalso. apply H. left. eauto. }
  destruct (dict_get (cls_ns o) name) as [v|]; [|reflexivity].
  intros H. exfalso. apply H. right. eauto.
Qed.

Lemma existing_attrs_sorted o (l : list string) :
  existing_attrs_of o = Ok l -> StronglySorted String.le l /\ NoDup l.
Proof.
  intros H. apply keep_eligible_Ok in H as [_ ->]. split.
  - apply filter_StronglySorted, dir_sorted.
  - apply filter_NoDup, dir_NoDup.
Qed.

End Dict.

(** ** What [_find_similar_attr] returns *)

Lemma orthographic_by_test (name attr : string) :
  name <> "" -> attr <> "" ->
  spelling_hit name attr = true -> Spec.orthographic_match attr name.
Proof. intros Hn Ha. apply spelling_hit_spec; assumption. Qed.

Lemma not_orthographic_by_test (name attr : string) :
  name <> "" -> attr <> "" ->
  spelling_hit name attr = false -> ~ Spec.orthographic_match attr name.
Proof.
  intros Hn Ha Hf Hm. apply spelling_hit_spec in Hm; [congruence|..];
    assumption.
Qed.

Section Resolution.

Context {V : Type}.
Variable DMetaphone : encoder.
Implicit Types (self o : obj V) (name : string) (l : list string).

Lemma eligible_members_nonempty o l x :
  existing_attrs_of o = Ok l -> x ∈ l -> x <> "".
Proof.
  intros Hl Hx. apply keep_eligible_all_eligible in Hl.
  rewrite List.Forall_forall in Hl. apply eligible_nonempty, Hl.
  apply list_elem_of_In, Hx.
Qed.

Lemma no_hits name o l (l1 : list string) :
  name <> "" -> existing_attrs_of o = Ok l -> l1 ⊆ l ->
  (forall x, x ∈ l1 -> ~ Spec.orthographic_match x name) ->
  Forall (fun x => spelling_hit name x = false) l1.
Proof.
  intros Hn Hl Hsub Hno. apply List.Forall_forall. intros x Hx.
  apply list_elem_of_In in Hx.
  destruct (spelling_hit name x) eqn:E; [|reflexivity].
  exfalso. apply (Hno x Hx). apply orthographic_by_test; try assumption.
  eapply eligible_members_nonempty; eauto.
Qed.

(** The first orthographic match in the list is the answer. *)
Lemma first_orthographic_match self name (l1 l2 : list string) (e : string) :
  eligible name = true ->
  existing_attrs_of self = Ok (l1 ++ e :: l2) ->
  (forall x, x ∈ l1 -> ~ Spec.orthographic_match x name) ->
  Spec.orthographic_match e name ->
  _find_similar_attr DMetaphone self name = Ok e.
Proof.
  intros Hname Hl Hno He.
  pose proof (eligible_nonempty _ Hname) as Hne.
  rewrite (find_similar_eligible DMetaphone self name _ Hname Hl).
  unfold two_passes. rewrite find_app_first; [reflexivity|..].
  - eapply no_hits; eauto. intros x Hx. apply elem_of_app. auto.
  - apply spelling_hit_spec; try assumption.
    eapply eligible_members_nonempty; [exact Hl|].
    apply elem_of_app. right. constructor.
Qed.

Lemma truthy_true (s : string) : truthy s = true <-> s <> "".
Proof. destruct s; simpl; split; congruence. Qed.

Lemma truthy_false (s : string) : truthy s = false <-> s = "".
Proof. destruct s; simpl; split; congruence. Qed.

(** What the two passes can answer: the name itself, or a listed name
    that passes the spelling test or carries the non-empty code of the
    name. *)
Lemma two_passes_cases name l (r : string) :
  two_passes DMetaphone name l = Ok r ->
  r = name \/
  (r ∈ l /\
   (spelling_hit name r = true \/
    exists s, s <> "" /\ _get_name_sound DMetaphone name = Ok s /\
              _get_name_sound DMetaphone r = Ok s)).
Proof.
  unfold two_passes.
  destruct (List.find (spelling_hit name) l) as [a|] eqn:E1.
  { intros [= <-]. right. apply List.find_some in E1 as [H1 H2].
    split; [apply list_elem_of_In, H1 | auto]. }
  intros H. apply rbind_Ok in H as (s & Hs & H).
  destruct (truthy s) eqn:T; [|left; congruence].
  apply rbind_Ok in H as ([a|] & Hloop & [= <-]); [|auto].
  right. destruct (sound_loop_Some DMetaphone s a l Hloop)
    as (l1 & l2 & -> & Ha & _).
  split; [apply elem_of_app; right; left|]. right.
  exists s. split; [apply truthy_true, T | auto].
Qed.

Lemma two_passes_result name l (r : string) :
  two_passes DMetaphone name l = Ok r -> r = name \/ r ∈ l.
Proof. intros H. apply two_passes_cases in H. tauto. Qed.

(** A name that is answered by itself without being listed is similar to
    no listed name. *)
Lemma two_passes_self name l :
  two_passes DMetaphone name l = Ok name -> name ∉ l ->
  forall e, e ∈ l ->
    spelling_hit name e = false /\
    ~ (exists s, s <> "" /\ _get_name_sound DMetaphone name = Ok s /\
                 _get_name_sound DMetaphone e = Ok s).
Proof.
  unfold two_passes. intros H Hnot e He.
  destruct (List.find (spelling_hit name) l) as [a|] eqn:E1.
  { injection H as ->. apply List.find_some in E1 as [Hin _].
    apply list_elem_of_In in Hin. contradiction. }
  split.
  { apply (List.find_none _ _ E1 e). apply list_elem_of_In, He. }
  apply rbind_Ok in H as (s & Hs & H).
  intros (s' & Hne & Hs' & He'). assert (s' = s) as -> by congruence.
  apply truthy_true in Hne. rewrite Hne in H.
  apply rbind_Ok in H as ([a|] & Hloop & H).
  - injection H as ->.
    destruct (sound_loop_Some DMetaphone s name l Hloop)
      as (l1 & l2 & -> & _ & _).
    apply Hnot, elem_of_app. right. left.
  - destruct (proj1 (sound_loop_None DMetaphone s l) Hloop e He)
      as (c & Hc & E). congruence.
Qed.

(** The answer is the name itself or a name that [dir] lists. *)
Lemma find_similar_result self name (r : string) :
  _find_similar_attr DMetaphone self name = Ok r ->
  r = name \/ r ∈ dir self.
Proof.
  intros H. pose proof H as H0. unfold _find_similar_attr in H0.
  apply rbind_Ok in H0 as (off & Hoff & H0). destruct off; simpl in H0.
  { left. congruence. }
  apply rbind_Ok in H0 as (l & Hl & _).
  rewrite (find_similar_eligible DMetaphone self name l) in H;
    [|apply eligible_off_limits, Hoff | exact Hl].
  destruct (two_passes_result name l r H) as [E|E]; [auto|].
  right. apply list_elem_of_In. eapply keep_eligible_sub; [exact Hl|].
  apply list_elem_of_In, E.
Qed.

(** A redirection goes from an eligible name to a listed eligible name
    that is similar to it. *)
Lemma find_similar_cases self name (r : string) :
  _find_similar_attr DMetaphone self name = Ok r ->
  r = name \/
  (eligible name = true /\ eligible r = true /\ r ∈ dir self /\
   (spelling_hit name r = true \/
    exists s, s <> "" /\ _get_name_sound DMetaphone name = Ok s /\
              _get_name_sound DMetaphone r = Ok s)).
Proof.
  intros H. pose proof H as H0. unfold _find_similar_attr in H0.
  apply rbind_Ok in H0 as (off & Hoff & H0). destruct off; simpl in H0.
  { left. congruence. }
  apply rbind_Ok in H0 as (l & Hl & _).
  assert (eligible name = true) as Hname by (apply eligible_off_limits, Hoff).
  rewrite (find_similar_eligible DMetaphone self name l Hname Hl) in H.
  destruct (two_passes_cases name l r H) as [E|[Hin Hsim]]; [auto|].
  right. split; [exact Hname|].
  pose proof (keep_eligible_all_eligible _ _ Hl) as Hall.
  rewrite List.Forall_forall in Hall. apply list_elem_of_In in Hin.
  split; [apply Hall, Hin|]. split; [|exact Hsim].
  apply list_elem_of_In. eapply keep_eligible_sub; eauto.
Qed.


(** A listed eligible name always resolves: the first loop stops at the
    name itself at the latest, before the encoder is asked. *)
Lemma find_similar_listed self l (e : string) :
  existing_attrs_of self = Ok l -> e ∈ l ->
  exists r, _find_similar_attr DMetaphone self e = Ok r /\
            r ∈ l /\ spelling_hit e r = true.
Proof.
  intros Hl He.
  assert (eligible e = true) as Hel.
  { pose proof (keep_eligible_all_eligible _ _ Hl) as Hall.
    rewrite List.Forall_forall in Hall. apply Hall, list_elem_of_In, He. }
  rewrite (find_similar_eligible DMetaphone self e l Hel Hl).
  unfold two_passes.
  destruct (List.find (spelling_hit e) l) as [r|] eqn:E.
  - exists r. apply List.find_some in E as [H1 H2].
    split; [reflexivity|]. split; [apply list_elem_of_In, H1 | exact H2].
  - apply list_elem_of_In in He.
    pose proof (List.find_none _ _ E e He) as H.
    unfold spelling_hit, similar_spelling in H.
    rewrite String.eqb_refl in H. discriminate.
Qed.

End Resolution.

(** ** Sample objects for the examples *)

(** An object on which [xqy] was written first and [xpy] second. *)
Lemma two_writes :
  Demo.sets Demo.dmo Demo.MyTest [("xqy", 1); ("xpy", 2)]
  = Ok (Demo.instance [("xqy", 1); ("xpy", 2)]).
Proof. vm_compute. reflexivity. Qed.

(** ** C1: the order of the names that are tried *)

(** C1, as the code has it: the names that [_find_similar_attr] goes
    through are the eligible names of [dir(self)], which come without
    repetition in ascending order of their spelling; when two of them pass
    the orthographic test for the name asked for, the answer passes it too
    and is not above either of them. *)
Theorem C1_tie_break_by_spelling {V : Type}
    (DMetaphone : encoder) (self : obj V)
    (name e1 e2 : string) (l : list string) :
  eligible name = true ->
  existing_attrs_of self = Ok l ->
  e1 ∈ l -> e2 ∈ l ->
  Spec.orthographic_match e1 name -> Spec.orthographic_match e2 name ->
  l = List.filter eligible (dir self) /\
  StronglySorted String.le l /\ NoDup l /\
  exists r, _find_similar_attr DMetaphone self name = Ok r /\
            r ∈ l /\ Spec.orthographic_match r name /\
            String.le r e1 /\ String.le r e2.
Proof.
  intros Hname Hl H1 H2 M1 M2.
  pose proof (eligible_nonempty _ Hname) as Hne.
  destruct (existing_attrs_sorted self l Hl) as [Hs Hnd].
  split; [apply (keep_eligible_Ok _ _ Hl)|]. split; [exact Hs|].
  split; [exact Hnd|].
  rewrite (find_similar_eligible DMetaphone self name l Hname Hl).
  assert (spelling_hit name e1 = true) as T1.
  { apply spelling_hit_spec; eauto using eligible_members_nonempty. }
  assert (spelling_hit name e2 = true) as T2.
  { apply spelling_hit_spec; eauto using eligible_members_nonempty. }
  destruct (find_is_Some (spelling_hit name) l e1 H1 T1) as [r Hr].
  exists r. unfold two_passes. rewrite Hr. split; [reflexivity|].
  pose proof (List.find_some _ _ Hr) as [Hin Hhit].
  apply list_elem_of_In in Hin. split; [exact Hin|]. split.
  - apply orthographic_by_test; eauto using eligible_members_nonempty.
  - split; eapply find_sorted_least; eauto.
Qed.

Lemma C1_tie_break_by_spelling_witness :
  exists r,
    _find_similar_attr Demo.dmo
      (Demo.instance [("xqy", 1); ("xpy", 2)]) "xy" = Ok r /\
    String.le r "xqy" /\ String.le r "xpy".
Proof.
  destruct (C1_tie_break_by_spelling Demo.dmo
              (Demo.instance [("xqy", 1); ("xpy", 2)])
              "xy" "xqy" "xpy" ["xpy"; "xqy"])
    as (_ & _ & _ & r & Hr & _ & _ & L1 & L2).
  - reflexivity.
  - vm_compute. reflexivity.
  - right. left.
  - left.
  - apply orthographic_by_test; [discriminate | discriminate|].
    vm_compute. reflexivity.
  - apply orthographic_by_test; [discriminate | discriminate|].
    vm_compute. reflexivity.
  - exists r. auto.
Defined.

(** C1 as stated fails: [xqy] is defined before [xpy], both pass the
    orthographic test for [xy], the loop goes through them in the order
    [xpy], [xqy], and the answer is [xpy], the one defined later. *)
Lemma C1_definition_order_counterexample :
  exists o : obj nat,
    Demo.sets Demo.dmo Demo.MyTest [("xqy", 1); ("xpy", 2)] = Ok o /\
    keys (inst o) = ["xqy"; "xpy"] /\
    existing_attrs_of o = Ok ["xpy"; "xqy"] /\
    Spec.orthographic_match "xqy" "xy" /\
    Spec.orthographic_match "xpy" "xy" /\
    _find_similar_attr Demo.dmo o "xy" = Ok "xpy" /\
    _find_similar_attr Demo.dmo o "xy" <> Ok "xqy".
Proof.
  eexists. split; [exact two_writes|].
  split; [reflexivity|]. split; [vm_compute; reflexivity|].
  split; [apply orthographic_by_test;
            [discriminate | discriminate | vm_compute; reflexivity]|].
  split; [apply orthographic_by_test;
            [discriminate | discriminate | vm_compute; reflexivity]|].
  split; [vm_compute; reflexivity | vm_compute; discriminate].
Qed.

(** ** C2: the orthographic pass *)

(** C2: for an eligible name, when the eligible names of [dir(self)], in
    the order of the loop, are [l1 ++ e :: l2], no name of [l1] satisfies
    the orthographic rule and [e] does, then [e] is returned in its
    original spelling. *)
Theorem C2_orthographic_pass {V : Type}
    (DMetaphone : encoder) (self : obj V)
    (name e : string) (l1 l2 : list string) :
  eligible name = true ->
  existing_attrs_of self = Ok (l1 ++ e :: l2) ->
  (forall x, x ∈ l1 -> ~ Spec.orthographic_match x name) ->
  Spec.orthographic_match e name ->
  l1 ++ e :: l2 = List.filter eligible (dir self) /\
  _find_similar_attr DMetaphone self name = Ok e.
Proof.
  intros Hname Hl Hno He. split.
  - apply (keep_eligible_Ok _ _ Hl).
  - eapply first_orthographic_match; eassumption.
Qed.

Lemma C2_orthographic_pass_witness :
  _find_similar_attr Demo.mute
    (Demo.instance [("fooBar", 1); ("alpha", 2)]) "FOBAOR" = Ok "fooBar".
Proof.
  apply (C2_orthographic_pass Demo.mute
           (Demo.instance [("fooBar", 1); ("alpha", 2)])
           "FOBAOR" "fooBar" ["alpha"] []).
  - reflexivity.
  - vm_compute. reflexivity.
  - intros x Hx. apply list_elem_of_singleton in Hx. subst x.
    apply not_orthographic_by_test; [discriminate | discriminate|].
    vm_compute. reflexivity.
  - apply orthographic_by_test; [discriminate | discriminate|].
    vm_compute. reflexivity.
Defined.

(** ** C3: the phonetic pass *)

Lemma find_first_such (f : string -> bool) (P : string -> Prop)
    (l : list string) :
  (forall x, x ∈ l -> (f x = true <-> P x)) ->
  Spec.first_such P l (List.find f l).
Proof.
  intros Hf. destruct (List.find f l) as [r|] eqn:E; simpl.
  - destruct (find_first f l r E) as (l1 & l2 & -> & Hr & Hl1).
    exists l1, l2. split; [reflexivity|]. split.
    + apply Hf; [|exact Hr]. apply elem_of_app. right. constructor.
    + intros x Hx HP. apply Hf in HP; [|apply elem_of_app; auto].
      rewrite List.Forall_forall in Hl1. apply list_elem_of_In in Hx.
      rewrite (Hl1 x Hx) in HP. discriminate.
  - intros x Hx HP. apply Hf in HP; [|exact Hx].
    apply list_elem_of_In in Hx.
    rewrite (List.find_none f l E x Hx) in HP. discriminate.
Qed.


(** The second loop raises at the first attribute for which the encoder
    has no code, when no attribute before it has the code of the name. *)
Lemma phonetic_pass_uncoded_attribute {V : Type} (DMetaphone : encoder)
    (self : obj V) (name code e : string) (l1 l2 : list string) :
  eligible name = true ->
  existing_attrs_of self = Ok (l1 ++ e :: l2) ->
  (forall x, x ∈ l1 ++ e :: l2 -> ~ Spec.orthographic_match x name) ->
  _get_name_sound DMetaphone name = Ok code -> code <> "" ->
  (forall x, x ∈ l1 ->
     exists c, _get_name_sound DMetaphone x = Ok c /\ c <> code) ->
  fst (DMetaphone e) = None ->
  _find_similar_attr DMetaphone self name
  = Raise (AttributeError "NoneType" "decode").
Proof.
  intros Hname Hl Hno Hcode Hne Hl1 He.
  rewrite (find_similar_eligible DMetaphone self name _ Hname Hl).
  unfold two_passes. rewrite find_none_all.
  2:{ eapply no_hits; eauto. apply eligible_nonempty, Hname. }
  rewrite Hcode. cbn [rbind]. apply truthy_true in Hne. rewrite Hne.
  apply get_name_sound_absent in He.
  rewrite (sound_loop_raises DMetaphone code e l1 l2 _ Hl1 He). reflexivity.
Qed.

(** C3, at the failing input: for an eligible name without orthographic
    match for which the encoder has no code, the resolution neither skips
    the second pass nor returns the name: line 57 raises the
    [AttributeError] of [None.decode()]. *)
Theorem C3_absent_code_raises {V : Type} (DMetaphone : encoder)
    (self : obj V) (name : string) (l : list string) :
  eligible name = true ->
  existing_attrs_of self = Ok l ->
  (forall x, x ∈ l -> ~ Spec.orthographic_match x name) ->
  fst (DMetaphone name) = None ->
  _find_similar_attr DMetaphone self name
  = Raise (AttributeError "NoneType" "decode").
Proof.
  intros Hname Hl Hno Hcode.
  rewrite (find_similar_eligible DMetaphone self name l Hname Hl).
  unfold two_passes. rewrite find_none_all.
  2:{ eapply no_hits; eauto. apply eligible_nonempty, Hname. }
  apply get_name_sound_absent in Hcode. rewrite Hcode. reflexivity.
Qed.

Lemma C3_absent_code_raises_witness :
  _find_similar_attr Demo.dmo (Demo.instance [("foobar", 123)]) "hh"
  = Raise (AttributeError "NoneType" "decode").
Proof.
  apply (C3_absent_code_raises Demo.dmo (Demo.instance [("foobar", 123)])
           "hh" ["foobar"]).
  - reflexivity.
  - vm_compute. reflexivity.
  - intros x Hx. apply list_elem_of_singleton in Hx. subst x.
    apply not_orthographic_by_test; [discriminate | discriminate|].
    vm_compute. reflexivity.
  - reflexivity.
Defined.

(** ** C4: reading an attribute *)

(** C4, as the code has it: if the object or its class has an attribute of
    that exact name, the read returns it and nothing is resolved.
    Otherwise the name is resolved and, when the resolution returns a
    name: if it is the name itself, [AttributeError] is raised with the
    class of the object and the name asked for; if it differs, the value
    kept under the resolved name is returned.  So that error is raised
    exactly when the name is missing and resolves to itself. *)
Theorem C4_read_contract {V : Type} (DMetaphone : encoder) (self : obj V)
    (name r : string) :
  name ∈ dir self \/ _find_similar_attr DMetaphone self name = Ok r ->
  (getattr DMetaphone self name
     = Raise (AttributeError (cls_id self) name)
   <-> r = name /\ name ∉ dir self) /\
  (name ∈ dir self ->
   getattr DMetaphone self name = object_getattribute self name /\
   returns (object_getattribute self name)) /\
  (name ∉ dir self -> r <> name ->
   getattr DMetaphone self name = object_getattribute self r /\
   returns (object_getattribute self r)).
Proof.
  intros Hpre.
  assert (name ∈ dir self ->
          getattr DMetaphone self name = object_getattribute self name /\
          returns (object_getattribute self name)) as Hin.
  { intros Hd. destruct (object_getattribute_dir self name Hd) as [v Hv].
    unfold getattr, returns. rewrite Hv. eauto. }
  destruct (decide (name ∈ dir self)) as [Hd|Hd].
  { split; [|split; [exact Hin | contradiction]].
    destruct (Hin Hd) as [-> [v Hv]]. rewrite Hv.
    split; [discriminate | tauto]. }
  destruct Hpre as [Hd'|Hr]; [contradiction|].
  assert (getattr DMetaphone self name
          = if String.eqb r name
            then Raise (AttributeError (cls_id self) name)
            else object_getattribute self r) as Hout.
  { unfold getattr. rewrite (object_getattribute_not_dir self name Hd).
    unfold __getattr__. rewrite Hr. reflexivity. }
  assert (r <> name -> returns (object_getattribute self r)) as Hret.
  { intros Hne. destruct (find_similar_result _ _ _ _ Hr) as [E|E];
      [contradiction|]. exact (object_getattribute_dir self r E). }
  split; [|split; [exact Hin|]].
  - rewrite Hout. destruct (String.eqb_spec r name) as [E|E]; [tauto|].
    destruct (Hret E) as [v Hv]. rewrite Hv. split; [discriminate | tauto].
  - intros _ Hne. split; [|exact (Hret Hne)].
    rewrite Hout. apply String.eqb_neq in Hne. rewrite Hne. reflexivity.
Qed.

Lemma C4_read_contract_witness :
  (getattr Demo.dmo (Demo.instance [("foobar", 123)]) "fubar"
     = Raise (AttributeError "MyTest" "fubar")
   <-> "foobar" = "fubar"
       /\ "fubar" ∉ dir (Demo.instance [("foobar", 123)])) /\
  ("fubar" ∈ dir (Demo.instance [("foobar", 123)]) ->
   getattr Demo.dmo (Demo.instance [("foobar", 123)]) "fubar"
   = object_getattribute (Demo.instance [("foobar", 123)]) "fubar" /\
   returns (object_getattribute (Demo.instance [("foobar", 123)])
              "fubar")) /\
  ("fubar" ∉ dir (Demo.instance [("foobar", 123)]) -> "foobar" <> "fubar" ->
   getattr Demo.dmo (Demo.instance [("foobar", 123)]) "fubar"
   = object_getattribute (Demo.instance [("foobar", 123)]) "foobar" /\
   returns (object_getattribute (Demo.instance [("foobar", 123)])
              "foobar")).
Proof.
  apply (C4_read_contract Demo.dmo (Demo.instance [("foobar", 123)])
           "fubar" "foobar").
  right. vm_compute. reflexivity.
Defined.

(** C4 as stated fails: on an instance of a class that defines both
    [color] and [colour], the name [colour] resolves to [color], whose
    value is [1], yet reading [colour] returns [2], the value kept under
    [colour] itself. *)
Lemma C4_existing_name_counterexample :
  _find_similar_attr Demo.dmo Demo.Palette "colour" = Ok "color" /\
  object_getattribute Demo.Palette "color" = Ok 1 /\
  getattr Demo.dmo Demo.Palette "colour" = Ok 2.
Proof. repeat split; vm_compute; reflexivity. Qed.

(** ** C5, C7, C8: the empty name *)


Lemma eligible_not_descriptor (name : string) :
  eligible name = true -> data_descriptor name = false.
Proof.
  intros H. unfold data_descriptor. simpl.
  destruct (String.eqb_spec name "__class__") as [->|_]; [discriminate H|].
  destruct (String.eqb_spec name "__dict__") as [->|_]; [discriminate H|].
  destruct (String.eqb_spec name "__weakref__") as [->|_];
    [discriminate H|].
  reflexivity.
Qed.

(** A write stores under the resolved name; unless the name written is
    one of the three special names, this is an entry of the instance
    dictionary. *)
Lemma setattr_inv {V : Type} (DMetaphone : encoder)
    (descriptor_set : obj V -> string -> V -> res (obj V)) (o o' : obj V)
    (name : string) (v : V) :
  setattr DMetaphone descriptor_set o name v = Ok o' ->
  exists r, _find_similar_attr DMetaphone o name = Ok r /\
            object_setattr descriptor_set o r v = Ok o' /\
            (r = name \/ r ∈ dir o) /\
            (data_descriptor name = false ->
             data_descriptor r = false /\ o' = store o r v).
Proof.
  unfold setattr, __setattr__. intros H.
  apply rbind_Ok in H as (r & Hr & H). exists r.
  split; [exact Hr|]. split; [exact H|].
  split; [exact (find_similar_result _ _ _ _ Hr)|].
  intros Hd. assert (data_descriptor r = false) as Hdr.
  { destruct (find_similar_cases _ _ _ _ Hr) as [->|(_ & E & _)];
      [exact Hd | apply eligible_not_descriptor, E]. }
  split; [exact Hdr|]. unfold object_setattr in H. rewrite Hdr in H.
  congruence.
Qed.

Lemma setattr_resolved {V : Type} (DMetaphone : encoder)
    (descriptor_set : obj V -> string -> V -> res (obj V)) (o : obj V)
    (name r : string) (v : V) :
  _find_similar_attr DMetaphone o name = Ok r ->
  data_descriptor r = false ->
  setattr DMetaphone descriptor_set o name v = Ok (store o r v).
Proof.
  intros Hr Hd. unfold setattr, __setattr__, object_setattr.
  rewrite Hr. cbn [rbind]. rewrite Hd. reflexivity.
Qed.

(** C5, at the failing input: resolving the empty name raises [IndexError],
    for every encoder and every object. *)
Theorem C5_empty_name_resolution_raises {V : Type}
    (DMetaphone : encoder) (self : obj V) :
  _find_similar_attr DMetaphone self "" = Raise IndexError.
Proof. reflexivity. Qed.

(** C7, at the failing input: the guard raises [IndexError] on the empty
    name instead of answering [True], and so does the resolution of the
    empty name, for every encoder and every object. *)
Theorem C7_empty_name_guard_raises {V : Type}
    (DMetaphone : encoder) (self : obj V) :
  _off_limits "" = Raise IndexError /\
  _find_similar_attr DMetaphone self "" = Raise IndexError.
Proof. split; reflexivity. Qed.

(** C8, at the failing input: a write under the empty name raises
    [IndexError], for every encoder, object and value. *)
Theorem C8_empty_name_write_raises {V : Type}
    (DMetaphone : encoder)
    (descriptor_set : obj V -> string -> V -> res (obj V)) (self : obj V)
    (value : V) :
  setattr DMetaphone descriptor_set self "" value = Raise IndexError.
Proof. reflexivity. Qed.

(** ** C6: the overwrite law *)

(** C6: after [set(a, v1)], when [b] resolves to [a], the write
    [set(b, v2)] succeeds, [a] was an attribute already, the object lists
    the same names as before, only the entry of [a] in the instance
    dictionary changes, and reading [a] returns [v2].  The name [a] is
    any name but [__class__], [__dict__] and [__weakref__], whose writes
    are the interpreter's. *)
Theorem C6_overwrite_law {V : Type}
    (DMetaphone : encoder)
    (descriptor_set : obj V -> string -> V -> res (obj V)) (o0 o1 : obj V)
    (a b : string) (v1 v2 : V) :
  data_descriptor a = false ->
  setattr DMetaphone descriptor_set o0 a v1 = Ok o1 ->
  _find_similar_attr DMetaphone o1 b = Ok a ->
  exists o2,
    setattr DMetaphone descriptor_set o1 b v2 = Ok o2 /\
    getattr DMetaphone o2 a = Ok v2 /\
    a ∈ dir o1 /\
    dir o2 = dir o1 /\
    inst o2 = dict_set (inst o1) a v2 /\
    (forall n, n <> a -> dict_get (inst o2) n = dict_get (inst o1) n).
Proof.
  intros Hda H1 H2. exists (store o1 a v2).
  assert (a ∈ dir o1) as Ha.
  { destruct (setattr_inv _ _ _ _ _ _ H1) as (r & Hr & _ & _ & Hst).
    destruct (Hst Hda) as [_ ->].
    destruct (String.eqb_spec r a) as [->|Hne].
    { apply dir_elem. left. simpl. apply keys_dict_set. auto. }
    destruct (find_similar_result _ _ _ _ Hr) as [E|E]; [contradiction|].
    pose proof (dir_setattr_existing o0 r v1 E) as Hdir.
    destruct (find_similar_result _ _ _ _ H2) as [E'|E']; [|exact E'].
    subst b.
    rewrite (find_similar_dir DMetaphone _ o0 a Hdir) in H2. congruence. }
  split; [apply setattr_resolved; assumption|].
  split.
  { unfold getattr. rewrite object_getattribute_setattr. reflexivity. }
  split; [exact Ha|]. split; [apply dir_setattr_existing, Ha|].
  split; [reflexivity|].
  intros n Hn. simpl. apply dict_get_set_ne. congruence.
Qed.

Lemma C6_overwrite_law_witness :
  exists o2,
    setattr Demo.dmo Demo.descr (Demo.instance [("foobar", 123)])
      "fuhbar" 456 = Ok o2 /\
    getattr Demo.dmo o2 "foobar" = Ok 456 /\
    "foobar" ∈ dir (Demo.instance [("foobar", 123)]) /\
    dir o2 = dir (Demo.instance [("foobar", 123)]) /\
    inst o2 = dict_set [("foobar", 123)] "foobar" 456 /\
    (forall n, n <> "foobar" ->
               dict_get (inst o2) n = dict_get [("foobar", 123)] n).
Proof.
  apply (C6_overwrite_law Demo.dmo Demo.descr (Demo.instance [])
           (Demo.instance [("foobar", 123)]) "foobar" "fuhbar" 123 456).
  - reflexivity.
  - vm_compute. reflexivity.
  - vm_compute. reflexivity.
Defined.

(** ** C9: [teh] and [the] *)

Lemma NoDup_singleton_ext (l : list string) (a : string) :
  NoDup l -> (forall x, x ∈ l <-> x = a) -> l = [a].
Proof.
  intros Hnd H. destruct l as [|y [|z l]].
  - exfalso. assert (a ∈ @nil string) as Hin by (apply H; reflexivity).
    inversion Hin.
  - f_equal. apply H. constructor.
  - exfalso. assert (y = a) as -> by (apply H; constructor).
    assert (z = a) as -> by (apply H; right; left).
    apply NoDup_cons in Hnd as [Hnd _]. apply Hnd. constructor.
Qed.

(** The first eligible name stored on an object becomes its only
    eligible name. *)
Lemma existing_attrs_first_write {V : Type} (o : obj V) (n : string)
    (v : V) :
  existing_attrs_of o = Ok [] -> eligible n = true ->
  (n ∉ dir o) /\ existing_attrs_of (store o n v) = Ok [n].
Proof.
  intros Hl Hn. destruct (keep_eligible_Ok _ _ Hl) as [Hne Hnil].
  assert (forall x, x ∈ dir o -> eligible x = false) as Hnone.
  { intros x Hx. destruct (eligible x) eqn:E; [|reflexivity]. exfalso.
    assert (In x (List.filter eligible (dir o))) as Hin.
    { apply List.filter_In. split; [apply list_elem_of_In, Hx | exact E]. }
    rewrite <- Hnil in Hin. exact Hin. }
  split.
  { intros Hin. apply Hnone in Hin. congruence. }
  assert (forall x, x ∈ dir (store o n v) <-> x = n \/ x ∈ dir o)
    as Hdir.
  { intros x. rewrite !dir_elem. simpl. rewrite keys_dict_set. tauto. }
  unfold existing_attrs_of. rewrite keep_eligible_filter.
  - f_equal. apply NoDup_singleton_ext.
    + apply filter_NoDup, dir_NoDup.
    + intros x. rewrite list_elem_of_In, List.filter_In, <- list_elem_of_In.
      rewrite Hdir. split.
      * intros [[->|Hx] E]; [reflexivity|]. apply Hnone in Hx. congruence.
      * intros ->. auto.
  - apply List.Forall_forall. intros x Hx. apply list_elem_of_In in Hx.
    apply Hdir in Hx as [->|Hx]; [apply eligible_nonempty, Hn|].
    rewrite List.Forall_forall in Hne. apply Hne, list_elem_of_In, Hx.
Qed.

(** On an object without eligible names, an eligible name for which the
    encoder has a code resolves to itself. *)
Lemma find_similar_fresh {V : Type} (DMetaphone : encoder) (o : obj V)
    (name code : string) :
  existing_attrs_of o = Ok [] -> eligible name = true ->
  _get_name_sound DMetaphone name = Ok code ->
  _find_similar_attr DMetaphone o name = Ok name.
Proof.
  intros Hl Hn Hc.
  rewrite (find_similar_eligible DMetaphone o name [] Hn Hl).
  unfold two_passes. cbn [List.find]. rewrite Hc. cbn [rbind].
  destruct (truthy code); reflexivity.
Qed.

(** With a single eligible attribute that fails the spelling test, the
    codes decide. *)
Lemma find_similar_single {V : Type} (DMetaphone : encoder) (o : obj V)
    (name e code code' : string) :
  eligible name = true ->
  existing_attrs_of o = Ok [e] ->
  spelling_hit name e = false ->
  _get_name_sound DMetaphone name = Ok code ->
  _get_name_sound DMetaphone e = Ok code' ->
  _find_similar_attr DMetaphone o name
  = Ok (if truthy code && String.eqb code' code then e else name).
Proof.
  intros Hn Hl Hs Hc Hc'.
  rewrite (find_similar_eligible DMetaphone o name [e] Hn Hl).
  unfold two_passes. cbn [List.find]. rewrite Hs, Hc. cbn [rbind].
  destruct (truthy code); [|reflexivity]. cbn [sound_loop andb].
  rewrite Hc'. cbn [rbind]. destruct (String.eqb code' code); reflexivity.
Qed.

(** C9, as the code has it, for an encoder that has a code for [teh] and
    for [the]: on an object without eligible names, after [set("teh", v)]
    the only eligible name is [teh].  The orthographic rule does not
    relate [teh] and [the]: their last letters are [h] and [e], and their
    interior letter sets differ in two letters.  Reading [the] returns
    [v] exactly when the code of [the] is non-empty and is also the code
    of [teh]; otherwise it raises [AttributeError] for [the]. *)
Theorem C9_teh_the {V : Type}
    (DMetaphone : encoder)
    (descriptor_set : obj V -> string -> V -> res (obj V)) (o : obj V)
    (v : V) (teh_code the_code : string) :
  existing_attrs_of o = Ok [] ->
  _get_name_sound DMetaphone "teh" = Ok teh_code ->
  _get_name_sound DMetaphone "the" = Ok the_code ->
  exists o1,
    setattr DMetaphone descriptor_set o "teh" v = Ok o1 /\
    existing_attrs_of o1 = Ok ["teh"] /\
    ~ Spec.orthographic_match "teh" "the" /\
    Spec.last_char "teh" = Some "h"%char /\
    Spec.last_char "the" = Some "e"%char /\
    PySet.len (PySet.symmetric_difference
                 (PySet.of_str (Str.inner "the"))
                 (PySet.of_str (Str.inner "teh"))) = 2 /\
    getattr DMetaphone o1 "the"
    = if truthy the_code && String.eqb teh_code the_code
      then Ok v
      else Raise (AttributeError (cls_id o) "the").
Proof.
  intros Hl Hteh_code Hthe_code. exists (store o "teh" v).
  destruct (existing_attrs_first_write o "teh" v Hl eq_refl) as [Hteh Hl1].
  destruct (existing_attrs_first_write o "the" v Hl eq_refl) as [Hthe _].
  split.
  { apply setattr_resolved; [|reflexivity].
    exact (find_similar_fresh DMetaphone o "teh" teh_code Hl eq_refl
             Hteh_code). }
  split; [exact Hl1|].
  assert (spelling_hit "the" "teh" = false) as Hmiss
    by (vm_compute; reflexivity).
  split.
  { apply not_orthographic_by_test; [discriminate | discriminate|].
    exact Hmiss. }
  split; [reflexivity|]. split; [reflexivity|].
  split; [vm_compute; reflexivity|].
  assert ("the" ∉ dir (store o "teh" v)) as Hout.
  { intros H. apply dir_elem in H. simpl in H. rewrite keys_dict_set in H.
    destruct H as [[E|E]|E]; [discriminate | |];
      apply Hthe; apply dir_elem; tauto. }
  unfold getattr. rewrite (object_getattribute_not_dir _ _ Hout).
  unfold __getattr__.
  rewrite (find_similar_single DMetaphone _ "the" "teh" the_code teh_code
             eq_refl Hl1 Hmiss Hthe_code Hteh_code).
  cbn [rbind].
  destruct (truthy the_code && String.eqb teh_code the_code).
  - change (String.eqb "teh" "the") with false. cbv iota.
    apply object_getattribute_setattr.
  - rewrite String.eqb_refl. reflexivity.
Qed.

Lemma C9_teh_the_witness :
  exists o1,
    setattr Demo.dmo Demo.descr Demo.MyTest "teh" 1 = Ok o1 /\
    existing_attrs_of o1 = Ok ["teh"] /\
    ~ Spec.orthographic_match "teh" "the" /\
    Spec.last_char "teh" = Some "h"%char /\
    Spec.last_char "the" = Some "e"%char /\
    PySet.len (PySet.symmetric_difference
                 (PySet.of_str (Str.inner "the"))
                 (PySet.of_str (Str.inner "teh"))) = 2 /\
    getattr Demo.dmo o1 "the"
    = if truthy "0" && String.eqb "t" "0"
      then Ok 1
      else Raise (AttributeError (cls_id Demo.MyTest) "the").
Proof.
  apply (C9_teh_the Demo.dmo Demo.descr Demo.MyTest 1 "t" "0").
  - vm_compute. reflexivity.
  - reflexivity.
  - reflexivity.
Defined.

(** C9 as stated fails: the orthographic rule does not relate [teh] and
    [the], and with an encoder that tells the two names apart the read of
    [the] after [set("teh", 1)] raises [AttributeError]. *)
Lemma C9_teh_the_counterexample :
  ~ Spec.orthographic_match "teh" "the" /\
  exists o1,
    setattr Demo.dmo Demo.descr Demo.MyTest "teh" 1 = Ok o1 /\
    _find_similar_attr Demo.dmo o1 "the" = Ok "the" /\
    getattr Demo.dmo o1 "the" = Raise (AttributeError "MyTest" "the").
Proof.
  split.
  - apply not_orthographic_by_test; [discriminate | discriminate|].
    vm_compute. reflexivity.
  - eexists. split; [vm_compute; reflexivity|].
    split; vm_compute; reflexivity.
Qed.

(** ** C10: candidates of two characters *)

Lemma length_lower (x : string) :
  String.length (Str.lower x) = String.length x.
Proof. induction x as [|a r IH]; simpl; congruence. Qed.

Lemma get_lower (x : string) (i : nat) :
  String.get i (Str.lower x) = option_map Str.lower_char (String.get i x).
Proof.
  revert i. induction x as [|a r IH]; intros i; [reflexivity|].
  destruct i as [|i]; simpl; [reflexivity | apply IH].
Qed.

Lemma interior_lower (x : string) (c : ascii) :
  Spec.interior (Str.lower x) c <->
  exists c', Spec.interior x c' /\ c = Str.lower_char c'.
Proof.
  unfold Spec.interior. split.
  - intros (i & Hpos & Hi & Hget). rewrite length_lower in Hi.
    rewrite get_lower in Hget.
    destruct (String.get i x) as [c'|] eqn:E; [|discriminate].
    injection Hget as <-. exists c'. split; [|reflexivity].
    exists i. auto.
  - intros (c' & (i & Hpos & Hi & Hget) & ->). exists i.
    rewrite length_lower, get_lower, Hget. auto.
Qed.

(** C10: a candidate of two characters has no interior letter.  An
    eligible existing name that starts and ends with the two characters
    of the candidate and has at most one distinct interior letter
    satisfies the orthographic rule, whatever its length, and is returned
    when no earlier name satisfies the rule. *)
Theorem C10_two_character_candidate {V : Type}
    (DMetaphone : encoder) (self : obj V)
    (c1 c2 : ascii) (e : string) (l1 l2 : list string) :
  eligible (String c1 (String c2 "")) = true ->
  existing_attrs_of self = Ok (l1 ++ e :: l2) ->
  Spec.first_char e = Some c1 ->
  Spec.last_char e = Some c2 ->
  (forall c d, Spec.interior e c -> Spec.interior e d -> c = d) ->
  (forall x, x ∈ l1 ->
             ~ Spec.orthographic_match x (String c1 (String c2 ""))) ->
  (forall c, ~ Spec.interior (String c1 (String c2 "")) c) /\
  Spec.orthographic_match e (String c1 (String c2 "")) /\
  _find_similar_attr DMetaphone self (String c1 (String c2 "")) = Ok e.
Proof.
  intros Hname Hl Hfirst Hlast Hone Hno.
  assert (forall s c, String.length s = 2 -> ~ Spec.interior s c) as Hempty.
  { intros s c Hs (i & Hpos & Hi & _). lia. }
  assert (Spec.orthographic_match e (String c1 (String c2 ""))) as Hm.
  { right. split; [|split].
    - exists c1, c1. repeat split; [exact Hfirst | reflexivity..].
    - exists c2, c2. repeat split; [exact Hlast | reflexivity..].
    - assert (forall x,
                ~ Spec.interior (Str.lower (String c1 (String c2 ""))) x)
        as HQ by (intros x; apply Hempty; reflexivity).
      intros c d Hc Hd.
      destruct Hc as [[Hc _]|[Hc _]]; [|destruct (HQ _ Hc)].
      destruct Hd as [[Hd _]|[Hd _]]; [|destruct (HQ _ Hd)].
      apply interior_lower in Hc as (c' & Hc & ->).
      apply interior_lower in Hd as (d' & Hd & ->).
      f_equal. apply Hone; assumption. }
  split; [intros c; apply Hempty; reflexivity|]. split; [exact Hm|].
  eapply first_orthographic_match; eassumption.
Qed.

Lemma C10_two_character_candidate_witness :
  (forall c, ~ Spec.interior "ab" c) /\
  Spec.orthographic_match "axxxxb" "ab" /\
  _find_similar_attr Demo.mute
    (Demo.instance [("axxxxb", 1)]) "ab" = Ok "axxxxb".
Proof.
  apply (C10_two_character_candidate Demo.mute
           (Demo.instance [("axxxxb", 1)]) "a" "b" "axxxxb" [] []).
  - reflexivity.
  - vm_compute. reflexivity.
  - reflexivity.
  - reflexivity.
  - intros c d Hc Hd. apply inner_interior, list_elem_of_In in Hc, Hd.
    cbn in Hc, Hd. intuition congruence.
  - intros x Hx. inversion Hx.
Defined.

(** ** The demonstration at the end of [fuz.py], run with the stand-in
    encoder *)

Example demo_read_back :
  (do m <- Demo.sets Demo.dmo Demo.MyTest [("foobar", 123)];
   getattr Demo.dmo m "foobar") = Ok 123.
Proof. vm_compute. reflexivity. Qed.

Example demo_read_by_sound :
  (do m <- Demo.sets Demo.dmo Demo.MyTest [("foobar", 123)];
   getattr Demo.dmo m "fubar") = Ok 123.
Proof. vm_compute. reflexivity. Qed.

Example demo_write_by_sound :
  Demo.sets Demo.dmo Demo.MyTest [("foobar", 123); ("fuhbar", 456)]
  = Ok (Demo.instance [("foobar", 456)]).
Proof. vm_compute. reflexivity. Qed.

Example demo_missing :
  getattr Demo.dmo Demo.MyTest "xy" = Raise (AttributeError "MyTest" "xy").
Proof. vm_compute. reflexivity. Qed.

Example demo_private_names :
  (do m <- Demo.sets Demo.dmo Demo.MyTest [("_secrit", 2); ("_secret", 1)];
   getattr Demo.dmo m "_secret") = Ok 1.
Proof. vm_compute. reflexivity. Qed.

Example demo_capitals :
  (do m <- Demo.sets Demo.dmo Demo.MyTest [("fooBar", 7)];
   getattr Demo.mute m "FOOBAR") = Ok 7.
Proof. vm_compute. reflexivity. Qed.

Example demo_no_code_read :
  getattr Demo.dmo Demo.MyTest "hh"
  = Raise (AttributeError "NoneType" "decode").
Proof. vm_compute. reflexivity. Qed.

Example demo_no_code_write :
  setattr Demo.dmo Demo.descr Demo.MyTest "hh" 1
  = Raise (AttributeError "NoneType" "decode").
Proof. vm_compute. reflexivity. Qed.

Example demo_special_name_write :
  setattr Demo.dmo Demo.descr Demo.MyTest "__class__" 5 = Raise TypeError.
Proof. vm_compute. reflexivity. Qed.

(** * Further properties of the code *)

(** ** The spelling test *)

Lemma orthographic_match_sym (a b : string) :
  Spec.orthographic_match a b -> Spec.orthographic_match b a.
Proof.
  intros [E|(Hf & Hl & Hd)]; [left; congruence|]. right.
  split; [|split].
  - destruct Hf as (c & d & ? & ? & ?). exists d, c. auto.
  - destruct Hl as (c & d & ? & ? & ?). exists d, c. auto.
  - revert Hd. apply fewer_than_two_ext. intros c.
    unfold Spec.sym_diff. tauto.
Qed.

Lemma spelling_hit_refl (a : string) : spelling_hit a a = true.
Proof.
  unfold spelling_hit, similar_spelling. rewrite String.eqb_refl.
  reflexivity.
Qed.

Lemma spelling_hit_empty_l (b : string) :
  spelling_hit "" b = match b with EmptyString => true | _ => false end.
Proof. destruct b; reflexivity. Qed.

Lemma spelling_hit_empty_r (a : string) :
  spelling_hit a "" = match a with EmptyString => true | _ => false end.
Proof. destruct a; reflexivity. Qed.

Lemma spelling_hit_sym (a b : string) : spelling_hit a b = spelling_hit b a.
Proof.
  destruct (String.eqb_spec a "") as [->|Ha].
  { rewrite spelling_hit_empty_l, spelling_hit_empty_r. reflexivity. }
  destruct (String.eqb_spec b "") as [->|Hb].
  { rewrite spelling_hit_empty_l, spelling_hit_empty_r. reflexivity. }
  apply eq_true_iff_eq. rewrite !spelling_hit_spec by assumption.
  split; apply orthographic_match_sym.
Qed.


(** X7: the test of the first loop is reflexive and symmetric: a name
    passes it against itself, and swapping the name asked for and the
    attribute does not change the outcome. *)
Theorem X7_spelling_test_symmetric (a b : string) :
  spelling_hit a a = true /\ spelling_hit a b = spelling_hit b a.
Proof. split; [apply spelling_hit_refl | apply spelling_hit_sym]. Qed.

(** X8: jumbled, repeated, and one extra or missing interior letter.  Two
    non-empty names whose first letters and whose last letters agree up to
    case pass the test as soon as the interior letters of their lower-cased
    forms are the same letters, except possibly for one letter [x], in
    whatever order and number. *)
Theorem X8_jumble_tolerance (name attr : string) (x : ascii) :
  name <> "" -> attr <> "" ->
  Spec.same_letter (Spec.first_char attr) (Spec.first_char name) ->
  Spec.same_letter (Spec.last_char attr) (Spec.last_char name) ->
  (forall c, c <> x ->
             (Spec.interior (Str.lower attr) c
              <-> Spec.interior (Str.lower name) c)) ->
  spelling_hit name attr = true.
Proof.
  intros Hn Ha Hf Hl Hint. apply spelling_hit_spec; [assumption..|].
  right. split; [exact Hf|]. split; [exact Hl|].
  assert (forall c, Spec.sym_diff (Spec.interior (Str.lower attr))
                      (Spec.interior (Str.lower name)) c -> c = x) as Hx.
  { intros c Hc. destruct (ascii_dec c x) as [E|E]; [exact E|].
    specialize (Hint c E). unfold Spec.sym_diff in Hc. tauto. }
  intros c d Hc Hd. rewrite (Hx c Hc), (Hx d Hd). reflexivity.
Qed.

Lemma X8_jumble_tolerance_witness : spelling_hit "Colour" "coolr" = true.
Proof.
  apply (X8_jumble_tolerance "Colour" "coolr" "u").
  - discriminate.
  - discriminate.
  - exists "c"%char, "C"%char. repeat split.
  - exists "r"%char, "r"%char. repeat split.
  - intros c Hc. rewrite <- !inner_interior, !list_elem_of_In. cbn.
    split; intros H; decompose [or] H; subst; auto 10; contradiction.
Defined.

Lemma first_char_lower (a : string) (c : ascii) :
  Spec.first_char a = Some c ->
  Spec.first_char (Str.lower a) = Some (Str.lower_char c).
Proof.
  unfold Spec.first_char. rewrite get_lower. intros ->. reflexivity.
Qed.

Lemma last_char_lower (a : string) (c : ascii) :
  Spec.last_char a = Some c ->
  Spec.last_char (Str.lower a) = Some (Str.lower_char c).
Proof.
  unfold Spec.last_char. rewrite length_lower, get_lower. intros ->.
  reflexivity.
Qed.

(** X9: the ends are anchored.  Two non-empty names whose first letters
    differ even up to case, or whose last letters do, never pass the
    test, whatever is between the ends. *)
Theorem X9_anchored_ends (name attr : string) (a n : ascii) :
  (Spec.first_char attr = Some a /\ Spec.first_char name = Some n) \/
  (Spec.last_char attr = Some a /\ Spec.last_char name = Some n) ->
  Str.lower_char a <> Str.lower_char n ->
  spelling_hit name attr = false.
Proof.
  intros Hends Hne.
  assert (name <> "" /\ attr <> "") as [Hn Ha].
  { destruct Hends as [[H1 H2]|[H1 H2]]; split; intros ->; discriminate. }
  destruct (spelling_hit name attr) eqn:E; [|reflexivity]. exfalso.
  apply spelling_hit_spec in E; [|assumption..].
  destruct Hends as [[H1 H2]|[H1 H2]].
  - destruct E as [E|((c & d & Hc & Hd & Hcd) & _)].
    + apply first_char_lower in H1, H2. rewrite E in H1. congruence.
    + congruence.
  - destruct E as [E|(_ & (c & d & Hc & Hd & Hcd) & _)].
    + apply last_char_lower in H1, H2. rewrite E in H1. congruence.
    + congruence.
Qed.

Lemma X9_anchored_ends_witness : spelling_hit "the" "teh" = false.
Proof.
  apply (X9_anchored_ends "the" "teh" "h" "e").
  - right. split; reflexivity.
  - discriminate.
Defined.

(** ** Reads and writes of single names *)




Lemma keep_eligible_raises (names : list string) :
  "" ∈ names -> keep_eligible names = Raise IndexError.
Proof.
  induction names as [|a names IH]; intros H; [inversion H|].
  apply elem_of_cons in H as [<-|H]; [reflexivity|].
  simpl. destruct (_off_limits a) as [b|e] eqn:E.
  - rewrite (IH H). reflexivity.
  - destruct a; [|rewrite off_limits_cons in E; discriminate].
    simpl in E. injection E as <-. reflexivity.
Qed.


Lemma dir_store {V : Type} (o : obj V) (r : string) (v : V) (n : string) :
  n ∈ dir (store o r v) <-> n ∈ dir o \/ n = r.
Proof. rewrite !dir_elem. simpl. rewrite keys_dict_set. tauto. Qed.

Lemma existing_attrs_elem {V : Type} (o : obj V) (l : list string)
    (e : string) :
  existing_attrs_of o = Ok l -> (e ∈ l <-> e ∈ dir o /\ eligible e = true).
Proof.
  intros Hl. apply keep_eligible_Ok in Hl as [_ ->].
  rewrite !list_elem_of_In. apply List.filter_In.
Qed.




(** X3: an attribute whose name is empty breaks the matching.  When
    [dir(self)] lists the empty name, resolving any eligible name raises
    [IndexError] out of the comprehension on line 78, and so do the write
    of such a name and the read of such a name that is missing. *)
Theorem X3_empty_attribute_name_poisons {V : Type}
    (DMetaphone : encoder)
    (descriptor_set : obj V -> string -> V -> res (obj V)) (o : obj V)
    (name : string) (v : V) :
  "" ∈ dir o -> eligible name = true ->
  _find_similar_attr DMetaphone o name = Raise IndexError /\
  setattr DMetaphone descriptor_set o name v = Raise IndexError /\
  (name ∉ dir o -> getattr DMetaphone o name = Raise IndexError).
Proof.
  intros He Hn.
  assert (_find_similar_attr DMetaphone o name = Raise IndexError) as Hr.
  { unfold _find_similar_attr, existing_attrs_of.
    apply eligible_off_limits in Hn. rewrite Hn. cbn [rbind negb].
    rewrite (keep_eligible_raises _ He). reflexivity. }
  split; [exact Hr|]. split.
  - unfold setattr, __setattr__. rewrite Hr. reflexivity.
  - intros Hd. unfold getattr.
    rewrite (object_getattribute_not_dir o name Hd).
    unfold __getattr__. rewrite Hr. reflexivity.
Qed.

Lemma X3_empty_attribute_name_poisons_witness :
  _find_similar_attr Demo.dmo (Demo.instance [("", 0)]) "foobar"
  = Raise IndexError /\
  setattr Demo.dmo Demo.descr (Demo.instance [("", 0)]) "foobar" 1
  = Raise IndexError /\
  ("foobar" ∉ dir (Demo.instance [("", 0)]) ->
   getattr Demo.dmo (Demo.instance [("", 0)]) "foobar" = Raise IndexError).
Proof.
  apply (X3_empty_attribute_name_poisons Demo.dmo Demo.descr
           (Demo.instance [("", 0)]) "foobar" 1).
  - apply list_elem_of_In. vm_compute. left. reflexivity.
  - reflexivity.
Defined.

(** X4: a name is only ever redirected to an eligible attribute that is
    similar to it.  When the resolved name differs from the name asked
    for, both are eligible, the resolved name is listed by [dir(self)],
    and it either satisfies the orthographic rule or has the same
    non-empty code as the name.  In particular no name is ever redirected
    to a one-letter or underscore attribute. *)
Theorem X4_redirects_only_to_similar_eligible {V : Type}
    (DMetaphone : encoder) (self : obj V)
    (name r : string) :
  _find_similar_attr DMetaphone self name = Ok r ->
  r <> name ->
  eligible name = true /\ eligible r = true /\ r ∈ dir self /\
  (Spec.orthographic_match r name \/
   (Spec.phonetic_match DMetaphone r name /\
    _get_name_sound DMetaphone name <> Ok "")).
Proof.
  intros H Hne.
  destruct (find_similar_cases _ _ _ _ H) as [E|(En & Er & Hd & Hsim)];
    [contradiction|].
  split; [exact En|]. split; [exact Er|]. split; [exact Hd|].
  destruct Hsim as [Hs|(s & Hs & Hn & Hr)].
  - left. apply orthographic_by_test;
      [apply eligible_nonempty, En | apply eligible_nonempty, Er | exact Hs].
  - right. split; [exists s; auto|]. rewrite Hn. congruence.
Qed.

Lemma X4_redirects_only_to_similar_eligible_witness :
  eligible "fubar" = true /\ eligible "foobar" = true /\
  "foobar" ∈ dir (Demo.instance [("foobar", 123)]) /\
  (Spec.orthographic_match "foobar" "fubar" \/
   (Spec.phonetic_match Demo.dmo "foobar" "fubar" /\
    _get_name_sound Demo.dmo "fubar" <> Ok "")).
Proof.
  apply (X4_redirects_only_to_similar_eligible Demo.dmo
           (Demo.instance [("foobar", 123)]) "fubar" "foobar").
  - vm_compute. reflexivity.
  - discriminate.
Defined.

(** X5: what a write of an ordinary name touches.  A successful write
    under a name other than [__class__], [__dict__] and [__weakref__]
    stores the value under the resolved name, which is the name itself
    or an eligible name the object already lists; every other attribute
    reads as before, no name disappears, the only name that can appear
    is the name written, and the class is untouched. *)
Theorem X5_write_frame {V : Type}
    (DMetaphone : encoder)
    (descriptor_set : obj V -> string -> V -> res (obj V)) (o o' : obj V)
    (name : string) (v : V) :
  data_descriptor name = false ->
  setattr DMetaphone descriptor_set o name v = Ok o' ->
  exists r,
    _find_similar_attr DMetaphone o name = Ok r /\
    (r = name \/ (r ∈ dir o /\ eligible r = true)) /\
    object_getattribute o' r = Ok v /\
    (forall n, n <> r ->
               object_getattribute o' n = object_getattribute o n) /\
    (forall n, n ∈ dir o' <-> n ∈ dir o \/ n = r) /\
    cls_id o' = cls_id o /\ cls_ns o' = cls_ns o.
Proof.
  intros Hd H.
  destruct (setattr_inv _ _ _ _ _ _ H) as (r & Hr & _ & _ & Hst).
  destruct (Hst Hd) as [_ ->].
  exists r. split; [exact Hr|]. split.
  { destruct (find_similar_cases _ _ _ _ Hr) as [E|(_ & Er & Hrd & _)];
      auto. }
  split; [apply object_getattribute_setattr|]. split.
  - intros n Hn. unfold object_getattribute. simpl.
    rewrite dict_get_set_ne by congruence. reflexivity.
  - split; [intros n; apply dir_store|]. split; reflexivity.
Qed.

Lemma X5_write_frame_witness :
  exists r,
    _find_similar_attr Demo.dmo (Demo.instance [("foobar", 123); ("zed", 1)])
      "fuhbar" = Ok r /\
    (r = "fuhbar" \/
     (r ∈ dir (Demo.instance [("foobar", 123); ("zed", 1)]) /\
      eligible r = true)) /\
    object_getattribute (Demo.instance [("foobar", 456); ("zed", 1)]) r
    = Ok 456 /\
    (forall n, n <> r ->
               object_getattribute
                 (Demo.instance [("foobar", 456); ("zed", 1)]) n
               = object_getattribute
                   (Demo.instance [("foobar", 123); ("zed", 1)]) n) /\
    (forall n, n ∈ dir (Demo.instance [("foobar", 456); ("zed", 1)]) <->
               n ∈ dir (Demo.instance [("foobar", 123); ("zed", 1)])
               \/ n = r) /\
    cls_id (Demo.instance [("foobar", 456); ("zed", 1)])
    = cls_id (Demo.instance [("foobar", 123); ("zed", 1)]) /\
    cls_ns (Demo.instance [("foobar", 456); ("zed", 1)])
    = cls_ns (Demo.instance [("foobar", 123); ("zed", 1)]).
Proof.
  apply (X5_write_frame Demo.dmo Demo.descr
           (Demo.instance [("foobar", 123); ("zed", 1)])
           (Demo.instance [("foobar", 456); ("zed", 1)]) "fuhbar" 456).
  - reflexivity.
  - vm_compute. reflexivity.
Defined.



(** ** The invariant of objects filled by assignment *)

Section Invariant.

Context {V : Type}.
Variable DMetaphone : encoder.
Variable descriptor_set : obj V -> string -> V -> res (obj V).
Implicit Types (o : obj V) (name : string) (l : list string).

Lemma find_similar_existing_attrs o name r :
  eligible name = true ->
  _find_similar_attr DMetaphone o name = Ok r ->
  exists l, existing_attrs_of o = Ok l /\
            two_passes DMetaphone name l = Ok r.
Proof.
  intros Hname H. pose proof H as H0. unfold _find_similar_attr in H0.
  apply eligible_off_limits in Hname as Hoff. rewrite Hoff in H0.
  cbn [rbind negb] in H0. apply rbind_Ok in H0 as (l & Hl & _).
  exists l. split; [exact Hl|].
  rewrite (find_similar_eligible DMetaphone o name l Hname Hl) in H.
  exact H.
Qed.

Lemma fuzzy_distinct_fresh o :
  existing_attrs_of o = Ok [] -> fuzzy_distinct DMetaphone o.
Proof.
  intros Hl e1 e2 H1 _ E1 _ _. exfalso.
  assert (e1 ∈ @nil string) as H by (apply (existing_attrs_elem o); auto).
  inversion H.
Qed.

(** A name that resolves to itself without being listed is similar to no
    eligible name of the object. *)
Lemma new_name_dissimilar o name e :
  eligible name = true -> name ∉ dir o ->
  _find_similar_attr DMetaphone o name = Ok name ->
  e ∈ dir o -> eligible e = true ->
  ~ Spec.orthographic_match e name /\
  ~ (Spec.phonetic_match DMetaphone e name /\
     _get_name_sound DMetaphone name <> Ok "").
Proof.
  intros Hname Hnew Hr He Hel.
  destruct (find_similar_existing_attrs o name name Hname Hr) as (l & Hl & Hp).
  assert (name ∉ l) as Hnl.
  { intros H. apply (existing_attrs_elem o l name Hl) in H. tauto. }
  assert (e ∈ l) as Hin by (apply (existing_attrs_elem o l e Hl); auto).
  destruct (two_passes_self DMetaphone name l Hp Hnl e Hin) as [Hs Hp'].
  split.
  - apply not_orthographic_by_test;
      [apply eligible_nonempty, Hname | apply eligible_nonempty, Hel|].
    exact Hs.
  - intros [(s & He' & Hn') Hne]. apply Hp'. exists s.
    split; [congruence | auto].
Qed.

Lemma fuzzy_distinct_setattr o o' name (v : V) :
  data_descriptor name = false ->
  fuzzy_distinct DMetaphone o ->
  setattr DMetaphone descriptor_set o name v = Ok o' ->
  fuzzy_distinct DMetaphone o'.
Proof.
  intros Hdd Inv H.
  destruct (setattr_inv _ _ _ _ _ _ H) as (r & Hr & _ & Hin & Hst).
  destruct (Hst Hdd) as [_ ->].
  destruct (decide (r ∈ dir o)) as [Hd|Hd].
  { unfold fuzzy_distinct. rewrite (dir_setattr_existing o r v Hd).
    exact Inv. }
  destruct Hin as [->|Hin]; [|contradiction].
  intros e1 e2 H1 H2 E1 E2 Hne.
  apply dir_store in H1, H2.
  destruct H1 as [H1| ->], H2 as [H2| ->].
  - apply Inv; assumption.
  - destruct (new_name_dissimilar o name e1 E2 Hd Hr H1 E1) as [Ho Hp].
    split; [exact Ho|].
    intros [Hph Hcode]. apply Hp. split; [exact Hph|].
    destruct Hph as (s & H1s & H2s). congruence.
  - destruct (new_name_dissimilar o name e2 E1 Hd Hr H2 E2) as [Ho Hp].
    split.
    + intros Hm. apply Ho, orthographic_match_sym, Hm.
    + intros [(s & H1s & H2s) Hcode]. apply Hp.
      split; [exists s; auto | exact Hcode].
  - congruence.
Qed.

Lemma fuzzy_distinct_setattrs o o' (ws : list (string * V)) :
  Forall (fun w => data_descriptor (fst w) = false) ws ->
  fuzzy_distinct DMetaphone o ->
  setattrs DMetaphone descriptor_set o ws = Ok o' ->
  fuzzy_distinct DMetaphone o'.
Proof.
  intros Hws. revert o.
  induction Hws as [|[n v] ws Hn _ IH]; intros o Inv H; simpl in H.
  - injection H as <-. exact Inv.
  - apply rbind_Ok in H as (o1 & H1 & H).
    eapply IH; [|exact H]. eapply fuzzy_distinct_setattr; eauto.
Qed.

(** Under the invariant a listed name resolves to itself. *)
Lemma existing_name_fixed o name r :
  fuzzy_distinct DMetaphone o -> name ∈ dir o ->
  _find_similar_attr DMetaphone o name = Ok r -> r = name.
Proof.
  intros Inv Hd Hr.
  destruct (find_similar_cases _ _ _ _ Hr) as [E|(En & Er & Hdr & Hsim)];
    [exact E|].
  destruct (String.eqb_spec r name) as [E|E]; [exact E|]. exfalso.
  destruct (Inv r name Hdr Hd Er En E) as [Ho Hp].
  destruct Hsim as [Hs|(s & Hs & Hn & Hrs)].
  - apply Ho. apply orthographic_by_test;
      [apply eligible_nonempty, En | apply eligible_nonempty, Er | exact Hs].
  - apply Hp. split; [exists s; auto|]. rewrite Hrs. congruence.
Qed.

End Invariant.

(** X10: assignment of ordinary names keeps the attributes apart.  If
    no two different eligible names of an object are spelled alike or
    share a non-empty code, the same holds after any script of writes
    that runs to its end and writes none of the names [__class__],
    [__dict__] and [__weakref__]. *)
Theorem X10_writes_keep_names_distinct {V : Type}
    (DMetaphone : encoder)
    (descriptor_set : obj V -> string -> V -> res (obj V)) (o o' : obj V)
    (ws : list (string * V)) :
  Forall (fun w => data_descriptor (fst w) = false) ws ->
  fuzzy_distinct DMetaphone o ->
  setattrs DMetaphone descriptor_set o ws = Ok o' ->
  fuzzy_distinct DMetaphone o'.
Proof. apply fuzzy_distinct_setattrs. Qed.

Lemma X10_writes_keep_names_distinct_witness :
  fuzzy_distinct Demo.dmo
    (Demo.instance [("foobar", 456); ("the", 1); ("teh", 2)]).
Proof.
  apply (X10_writes_keep_names_distinct Demo.dmo Demo.descr Demo.MyTest
           (Demo.instance [("foobar", 456); ("the", 1); ("teh", 2)])
           [("foobar", 123); ("the", 1); ("fuhbar", 456); ("teh", 2)]).
  - repeat constructor.
  - apply fuzzy_distinct_fresh. vm_compute. reflexivity.
  - vm_compute. reflexivity.
Defined.

(** X11: under that invariant resolution is stable.  A name the object
    lists resolves to itself, and resolving the answer of a resolution
    gives the same answer again. *)
Theorem X11_resolution_idempotent {V : Type}
    (DMetaphone : encoder) (o : obj V)
    (name r : string) :
  fuzzy_distinct DMetaphone o ->
  _find_similar_attr DMetaphone o name = Ok r ->
  (name ∈ dir o -> r = name) /\
  _find_similar_attr DMetaphone o r = Ok r.
Proof.
  intros Inv Hr. split.
  { intros Hd. exact (existing_name_fixed DMetaphone o name r Inv Hd Hr). }
  destruct (find_similar_cases _ _ _ _ Hr) as [->|(En & Er & Hdr & _)];
    [exact Hr|].
  destruct (find_similar_existing_attrs DMetaphone o name r En Hr)
    as (l & Hl & _).
  assert (r ∈ l) as Hin by (apply (existing_attrs_elem o l r Hl); auto).
  destruct (find_similar_listed DMetaphone o l r Hl Hin) as (r2 & Hr2 & _).
  rewrite Hr2. f_equal.
  exact (existing_name_fixed DMetaphone o r r2 Inv Hdr Hr2).
Qed.

Lemma X11_resolution_idempotent_witness :
  ("fubar" ∈ dir (Demo.instance [("foobar", 123)]) -> "foobar" = "fubar") /\
  _find_similar_attr Demo.dmo (Demo.instance [("foobar", 123)]) "foobar"
  = Ok "foobar".
Proof.
  apply (X11_resolution_idempotent Demo.dmo
           (Demo.instance [("foobar", 123)]) "fubar" "foobar").
  - apply (fuzzy_distinct_setattrs Demo.dmo Demo.descr Demo.MyTest _
             [("foobar", 123)]).
    + repeat constructor.
    + apply fuzzy_distinct_fresh. vm_compute. reflexivity.
    + vm_compute. reflexivity.
  - vm_compute. reflexivity.
Defined.

(** X12: what was written can be read back under the same name.  After
    a successful write of [v] under a name other than [__class__],
    [__dict__] and [__weakref__], reading that name returns [v],
    provided the object satisfies the invariant or did not list the name
    before the write. *)
Theorem X12_write_then_read {V : Type}
    (DMetaphone : encoder)
    (descriptor_set : obj V -> string -> V -> res (obj V)) (o o' : obj V)
    (name : string) (v : V) :
  data_descriptor name = false ->
  fuzzy_distinct DMetaphone o \/ name ∉ dir o ->
  setattr DMetaphone descriptor_set o name v = Ok o' ->
  getattr DMetaphone o' name = Ok v.
Proof.
  intros Hdd Hpre H.
  destruct (setattr_inv _ _ _ _ _ _ H) as (r & Hr & _ & Hin & Hst).
  destruct (Hst Hdd) as [_ ->].
  destruct (String.eqb_spec r name) as [->|E].
  { unfold getattr. rewrite object_getattribute_setattr. reflexivity. }
  destruct Hin as [->|Hin]; [congruence|].
  assert (name ∉ dir o) as Hnew.
  { destruct Hpre as [Inv|Hnew]; [|exact Hnew]. intros Hd.
    apply E. exact (existing_name_fixed DMetaphone o name r Inv Hd Hr). }
  pose proof (dir_setattr_existing o r v Hin) as Hdir.
  unfold getattr.
  rewrite object_getattribute_not_dir by (rewrite Hdir; exact Hnew).
  unfold __getattr__.
  rewrite (find_similar_dir DMetaphone _ o name Hdir), Hr. cbn [rbind].
  apply String.eqb_neq in E. rewrite E.
  apply object_getattribute_setattr.
Qed.

Lemma X12_write_then_read_witness :
  getattr Demo.dmo (Demo.instance [("foobar", 456)]) "fuhbar" = Ok 456.
Proof.
  apply (X12_write_then_read Demo.dmo Demo.descr
           (Demo.instance [("foobar", 123)])
           (Demo.instance [("foobar", 456)]) "fuhbar" 456).
  - reflexivity.
  - right. intros H. apply list_elem_of_In in H. vm_compute in H.
    decompose [or] H; discriminate || contradiction.
  - vm_compute. reflexivity.
Defined.



(** ** Missing names and the demonstration of the module *)



(** X15: the demonstration at the end of the module, for every encoder
    that gives [foobar], [fubar] and [fuhbar] one non-empty code.  On an
    object without eligible attributes, after [m.foobar = v] both
    [m.foobar] and [m.fubar] read [v]; the spelling test does not relate
    the names, the match comes from the sound.  After [m.fuhbar = w] the
    object still has the single attribute [foobar], which reads [w]. *)
Theorem X15_demonstration {V : Type}
    (DMetaphone : encoder)
    (descriptor_set : obj V -> string -> V -> res (obj V)) (m : obj V)
    (v w : V) (code : string) :
  existing_attrs_of m = Ok [] ->
  code <> "" ->
  _get_name_sound DMetaphone "foobar" = Ok code ->
  _get_name_sound DMetaphone "fubar" = Ok code ->
  _get_name_sound DMetaphone "fuhbar" = Ok code ->
  exists m1 m2,
    setattr DMetaphone descriptor_set m "foobar" v = Ok m1 /\
    getattr DMetaphone m1 "foobar" = Ok v /\
    spelling_hit "fubar" "foobar" = false /\
    getattr DMetaphone m1 "fubar" = Ok v /\
    setattr DMetaphone descriptor_set m1 "fuhbar" w = Ok m2 /\
    existing_attrs_of m2 = Ok ["foobar"] /\
    getattr DMetaphone m2 "foobar" = Ok w.
Proof.
  intros Hl Hc Ho Hu Hh.
  exists (store m "foobar" v).
  exists (store (store m "foobar" v) "foobar" w).
  destruct (existing_attrs_first_write m "foobar" v Hl eq_refl) as [_ Hl1].
  destruct (existing_attrs_first_write m "fubar" v Hl eq_refl) as [Hfu _].
  assert ("foobar" ∈ dir (store m "foobar" v)) as Hin.
  { apply dir_store. auto. }
  assert (forall name,
            eligible name = true -> spelling_hit name "foobar" = false ->
            _get_name_sound DMetaphone name = Ok code ->
            _find_similar_attr DMetaphone (store m "foobar" v) name
            = Ok "foobar") as Hsound.
  { intros name En Hs Hn.
    rewrite (find_similar_single DMetaphone _ name "foobar" code code
               En Hl1 Hs Hn Ho).
    apply truthy_true in Hc. rewrite Hc, String.eqb_refl. reflexivity. }
  split.
  { apply setattr_resolved; [|reflexivity].
    exact (find_similar_fresh DMetaphone m "foobar" code Hl eq_refl Ho). }
  split.
  { unfold getattr. rewrite object_getattribute_setattr. reflexivity. }
  split; [reflexivity|]. split.
  { unfold getattr. rewrite object_getattribute_not_dir.
    - unfold __getattr__.
      rewrite (Hsound "fubar" eq_refl eq_refl Hu). cbn [rbind].
      change (String.eqb "foobar" "fubar") with false. cbv iota.
      apply object_getattribute_setattr.
    - rewrite dir_store. intros [H|H]; [contradiction|discriminate]. }
  split.
  { apply setattr_resolved; [|reflexivity].
    exact (Hsound "fuhbar" eq_refl eq_refl Hh). }
  split.
  { unfold existing_attrs_of. rewrite dir_setattr_existing by exact Hin.
    exact Hl1. }
  unfold getattr. rewrite object_getattribute_setattr. reflexivity.
Qed.

Lemma X15_demonstration_witness :
  exists m1 m2,
    setattr Demo.dmo Demo.descr Demo.MyTest "foobar" 123 = Ok m1 /\
    getattr Demo.dmo m1 "foobar" = Ok 123 /\
    spelling_hit "fubar" "foobar" = false /\
    getattr Demo.dmo m1 "fubar" = Ok 123 /\
    setattr Demo.dmo Demo.descr m1 "fuhbar" 456 = Ok m2 /\
    existing_attrs_of m2 = Ok ["foobar"] /\
    getattr Demo.dmo m2 "foobar" = Ok 456.
Proof.
  apply (X15_demonstration Demo.dmo Demo.descr Demo.MyTest 123 456 "fbr").
  - vm_compute. reflexivity.
  - discriminate.
  - reflexivity.
  - reflexivity.
  - reflexivity.
Defined.
